(** * ai-prompt-templates: template validation, parameter collection,
      template generation and the template registry.

    A shallow embedding of
    - [src/types/index.ts] (shape validators),
    - [src/utils/parameter-collection.ts] (parameter collection),
    - [src/utils/template-generation.ts] (the Handlebars generator),
    - [src/utils/template-registry.ts] (the discovery cache).

    JavaScript strings are modelled as [string] (sequences of ASCII code
    units); JavaScript objects read by the code are association lists in
    property order. *)

From Stdlib Require Import QArith_base Ascii String.
From stdpp Require Import base list gmap strings pretty sorting.

Set Warnings "-register-all".

Local Open Scope string_scope.

(** String concatenation (JavaScript [+] and template literals). *)
Infix "+s+" := String.append (at level 60, right associativity).

(* ================================================================= *)
(** ** JavaScript values *)

(** A JavaScript number: NaN, a finite value or a signed infinity. *)
Inductive jsnum :=
| NaN
| Finite (q : Q)
| Infinity (negative : bool).

(** The values the code inspects with [typeof], [===] and property
    reads.  [JObject] carries the own enumerable properties in
    [Object.entries] order. *)
Inductive jsval :=
| JUndefined
| JNull
| JBool (b : bool)
| JNum (n : jsnum)
| JStr (s : string)
| JArray (elems : list jsval)
| JObject (props : list (string * jsval))
| JFunction (fname : string).

(** [typeof v] *)
Definition typeof (v : jsval) : string :=
  match v with
  | JUndefined => "undefined"
  | JNull => "object"
  | JBool _ => "boolean"
  | JNum _ => "number"
  | JStr _ => "string"
  | JArray _ | JObject _ => "object"
  | JFunction _ => "function"
  end.

Fixpoint assoc_get {A} (k : string) (l : list (string * A)) : option A :=
  match l with
  | [] => None
  | (k', v) :: t => if String.eqb k k' then Some v else assoc_get k t
  end.

(** Property read [v.p].  None of the property names the code reads
    ([name], [description], [template], [parameters], [required], [type],
    [defaultValue]) exists on [Object.prototype], [Array.prototype] or
    [String.prototype]; a missing property reads as [undefined].  Every
    read in the code is guarded against [null] and [undefined] by a
    preceding [typeof]/[!== null] test, so those receivers never occur. *)
Definition get (v : jsval) (p : string) : jsval :=
  match v with
  | JObject props => match assoc_get p props with Some x => x | None => JUndefined end
  | JArray elems => if String.eqb p "length" then JNum (Finite (inject_Z (Z.of_nat (length elems)))) else JUndefined
  | JStr s => if String.eqb p "length" then JNum (Finite (inject_Z (Z.of_nat (String.length s)))) else JUndefined
  | JFunction n => if String.eqb p "name" then JStr n else JUndefined
  | _ => JUndefined
  end.



(** [Object.values v] *)
Definition object_values (v : jsval) : list jsval :=
  match v with
  | JObject props => map snd props
  | JArray elems => elems
  | _ => []
  end.

(** Strict equality [a === b] against [undefined], [null] and string
    literals, the only comparisons the code makes on raw values. *)
Definition is_undefined (v : jsval) : bool :=
  match v with JUndefined => true | _ => false end.
Definition is_null (v : jsval) : bool :=
  match v with JNull => true | _ => false end.
Definition is_str (s : string) (v : jsval) : bool :=
  match v with JStr s' => String.eqb s' s | _ => false end.

Definition typeof_is (t : string) (v : jsval) : bool := String.eqb (typeof v) t.

(* ================================================================= *)
(** ** [src/types/index.ts]: the shape validators *)

Module Types.

(** [isValidParameterConfig] *)
Definition isValidParameterConfig (param : jsval) : bool :=
  typeof_is "object" param &&
  negb (is_null param) &&
  typeof_is "string" (get param "description") &&
  typeof_is "boolean" (get param "required") &&
  existsb (fun t => is_str t (get param "type")) ["string"; "number"; "boolean"] &&
  (is_undefined (get param "defaultValue") ||
   typeof_is "string" (get param "defaultValue")).

(** [String(config.name).length] for a string [name]. *)
Definition str_length (v : jsval) : nat :=
  match v with JStr s => String.length s | _ => 0 end.

(** [isValidTemplateConfig] *)
Definition isValidTemplateConfig (config : jsval) : bool :=
  typeof_is "object" config &&
  negb (is_null config) &&
  typeof_is "string" (get config "name") &&
  Nat.ltb 0 (str_length (get config "name")) &&
  typeof_is "string" (get config "description") &&
  typeof_is "string" (get config "template") &&
  typeof_is "object" (get config "parameters") &&
  negb (is_null (get config "parameters")) &&
  forallb isValidParameterConfig (object_values (get config "parameters")).

Record Validation := { valid : bool; errors : list string }.



End Types.

(* ================================================================= *)
(** ** Errors thrown by the code *)

(** The [Error] subclasses of [src/types/index.ts]; [JsError] stands for
    any other thrown value, by its message. *)
Inductive jserror :=
| ParameterValidationError (message : string) (parameterName : option string)
| TemplateGenerationError (message : string) (templateName : option string)
| ValidationError (message : string)
| JsError (message : string).

(** [error instanceof Error ? error.message : String(error)] *)
Definition error_message (e : jserror) : string :=
  match e with
  | ParameterValidationError m _ | TemplateGenerationError m _
  | ValidationError m | JsError m => m
  end.

(* ================================================================= *)
(** ** JavaScript conversions *)

(** The two numeric conversions of the engine the code relies on,
    ECMAScript's StringToNumber and Number::toString.  The development is
    parametric in them. *)
Class JsNumeric := {
  StringToNumber : string -> jsnum;
  NumberToString : jsnum -> string
}.

(** Strings are sequences of code units; the model covers the code units
    0 to 255 (Latin-1), one [ascii] each.  JavaScript whitespace and line
    terminators in that range: TAB, LF, VT, FF, CR, SPACE and NO-BREAK
    SPACE (the [\s] class and [String.prototype.trim]). *)
Definition is_ws (c : ascii) : bool :=
  let n := nat_of_ascii c in (Nat.leb 9 n && Nat.leb n 13) || Nat.eqb n 32 || Nat.eqb n 160.

Fixpoint drop_ws (l : list ascii) : list ascii :=
  match l with
  | [] => []
  | c :: t => if is_ws c then drop_ws t else l
  end.

(** [s.trim()] *)
Definition trim (s : string) : string :=
  string_of_list_ascii (rev (drop_ws (rev (drop_ws (list_ascii_of_string s))))).

(** Lower case of a Latin-1 code unit: A-Z and the capitals 192-222
    other than the multiplication sign 215. *)
Definition ascii_lower (c : ascii) : ascii :=
  let n := nat_of_ascii c in
  if (Nat.leb 65 n && Nat.leb n 90) || (Nat.leb 192 n && Nat.leb n 222 && negb (Nat.eqb n 215))
  then ascii_of_nat (n + 32) else c.

(** [s.toLowerCase()] *)
Fixpoint toLowerCase (s : string) : string :=
  match s with
  | EmptyString => EmptyString
  | String c t => String (ascii_lower c) (toLowerCase t)
  end.

Section Conversions.
Context `{JsNumeric}.

(** [String(v)] (ToString).  For a function the engine prints its source
    text; the model prints a fixed native-code form. *)
Fixpoint js_String (v : jsval) : string :=
  match v with
  | JUndefined => "undefined"
  | JNull => "null"
  | JBool b => if b then "true" else "false"
  | JNum n => NumberToString n
  | JStr s => s
  | JArray elems =>
      String.concat ","
        (map (fun e => match e with JUndefined | JNull => "" | _ => js_String e end) elems)
  | JObject _ => "[object Object]"
  | JFunction n => "function " +s+ n +s+ "() { [native code] }"
  end.

(** [Number(v)] (ToNumber); an array, object or function converts
    through its string form. *)
Definition ToNumber (v : jsval) : jsnum :=
  match v with
  | JUndefined => NaN
  | JNull => Finite 0
  | JBool b => Finite (if b then 1 else 0)
  | JNum n => n
  | JStr s => StringToNumber s
  | _ => StringToNumber (js_String v)
  end.

End Conversions.

(** [Boolean(v)] (ToBoolean) *)
Definition ToBoolean (v : jsval) : bool :=
  match v with
  | JUndefined | JNull => false
  | JBool b => b
  | JNum NaN => false
  | JNum (Finite q) => negb (Qeq_bool q 0)
  | JNum (Infinity _) => true
  | JStr s => negb (String.eqb s "")
  | _ => true
  end.

(** [isNaN(n)] for a number [n]. *)
Definition isNaN (n : jsnum) : bool :=
  match n with NaN => true | _ => false end.

(** [obj[k] = v] on a plain object: overwrite in place or append. *)
Fixpoint obj_set (k : string) (v : jsval) (o : list (string * jsval)) : list (string * jsval) :=
  match o with
  | [] => [(k, v)]
  | (k', v') :: t => if String.eqb k k' then (k', v) :: t else (k', v') :: obj_set k v t
  end.

(** [obj[k]] on a plain object. *)
Definition obj_get (k : string) (o : list (string * jsval)) : jsval :=
  match assoc_get k o with Some v => v | None => JUndefined end.

(** A concrete [JsNumeric] covering the inputs used in the examples:
    after trimming, the empty string is [+0] and an unsigned decimal
    integer is its value; every other string is NaN.  Integers print in
    decimal. *)
Fixpoint decimal_digits (acc : Z) (l : list ascii) : option Z :=
  match l with
  | [] => Some acc
  | c :: t =>
      let n := nat_of_ascii c in
      if Nat.leb 48 n && Nat.leb n 57 then decimal_digits (acc * 10 + Z.of_nat (n - 48))%Z t
      else None
  end.

Definition decimal_StringToNumber (s : string) : jsnum :=
  match list_ascii_of_string (trim s) with
  | [] => Finite 0
  | l => match decimal_digits 0 l with Some z => Finite (inject_Z z) | None => NaN end
  end.

Definition decimal_NumberToString (n : jsnum) : string :=
  match n with
  | NaN => "NaN"
  | Infinity false => "Infinity"
  | Infinity true => "-Infinity"
  | Finite q => pretty (Qnum q) +s+ (if Pos.eqb (Qden q) 1 then "" else "/" +s+ pretty (Zpos (Qden q)))
  end.

#[export] Instance decimal_numeric : JsNumeric :=
  {| StringToNumber := decimal_StringToNumber; NumberToString := decimal_NumberToString |}.

(* ================================================================= *)
(** ** [src/utils/parameter-collection.ts] *)

Inductive ParameterType := PTString | PTNumber | PTBoolean.

Module ParameterConfig.
Record t := mk {
  description : string;
  required : bool;
  defaultValue : option string;
  type : ParameterType
}.
End ParameterConfig.

Module TemplateConfig.
Record t := mk {
  name : string;
  description : string;
  template : string;
  parameters : list (string * ParameterConfig.t)
}.
End TemplateConfig.

Module Collection.
Import ParameterConfig.

Record CollectionOptions := {
  showDescriptions : bool;
  useColors : bool;
  promptPrefix : string
}.

(** The destructuring defaults of [collectParameters]. *)
Definition default_options : CollectionOptions :=
  {| showDescriptions := true; useColors := true; promptPrefix := "" |}.

Record CollectionResult := {
  parameters : list (string * jsval);
  success : bool;
  error : option string
}.

Inductive QuestionType := QConfirm | QInput.

(** An inquirer question.  [validate] returns [None] for [true] and
    [Some msg] for a message; [filter] maps the typed text to the answer. *)
Record Question := {
  qname : string;
  message : string;
  qtype : QuestionType;
  default : jsval;
  filter : option (string -> jsval);
  validate : jsval -> option string
}.

Section Collect.
Context `{JsNumeric}.

(** [validateParameterValue]: [None] when it returns, [Some e] when it
    throws [e]. *)
Definition validateParameterValue (paramName : string) (value : jsval)
    (config : ParameterConfig.t) : option jserror :=
  let empty := is_str "" value || is_null value || is_undefined value in
  if required config && empty then
    Some (ParameterValidationError ("Parameter '" +s+ paramName +s+ "' is required") (Some paramName))
  else if negb (required config) && empty then None
  else
    match type config with
    | PTString =>
        if negb (typeof_is "string" value) then
          Some (ParameterValidationError ("Parameter '" +s+ paramName +s+ "' must be a string") (Some paramName))
        else None
    | PTNumber =>
        if isNaN (ToNumber value) then
          Some (ParameterValidationError ("Parameter '" +s+ paramName +s+ "' must be a valid number") (Some paramName))
        else None
    | PTBoolean =>
        if negb (typeof_is "boolean" value) then
          Some (ParameterValidationError ("Parameter '" +s+ paramName +s+ "' must be a boolean") (Some paramName))
        else None
    end.

(** [createValidator] *)
Definition createValidator (paramName : string) (config : ParameterConfig.t) : jsval -> option string :=
  fun input =>
    match validateParameterValue paramName input config with
    | None => None
    | Some e => Some (error_message e)
    end.

Definition default_of (d : option string) : jsval :=
  match d with Some s => JStr s | None => JUndefined end.

(** One element of [createPromptsFromParameters]. *)
Definition createPrompt (options : CollectionOptions) (entry : string * ParameterConfig.t) : Question :=
  let '(paramName, paramConfig) := entry in
  let m0 := promptPrefix options +s+ paramName in
  let m1 := if showDescriptions options && negb (String.eqb (description paramConfig) "")
            then m0 +s+ " (" +s+ description paramConfig +s+ ")" else m0 in
  let m2 := match defaultValue paramConfig with
            | Some d => if negb (required paramConfig) then m1 +s+ " [" +s+ d +s+ "]" else m1
            | None => m1
            end in
  let msg := m2 +s+ (if required paramConfig then " *" else "") in
  let v := createValidator paramName paramConfig in
  match type paramConfig with
  | PTBoolean =>
      {| qname := paramName; message := msg; qtype := QConfirm;
         default := match defaultValue paramConfig with
                    | Some d => JBool (String.eqb d "true")
                    | None => JUndefined
                    end;
         filter := None; validate := v |}
  | PTNumber =>
      {| qname := paramName; message := msg; qtype := QInput;
         default := default_of (defaultValue paramConfig);
         filter := Some (fun input =>
                     match defaultValue paramConfig with
                     | Some d => if String.eqb (trim input) "" then JStr d else JStr input
                     | None => JStr input
                     end);
         validate := v |}
  | PTString =>
      {| qname := paramName; message := msg; qtype := QInput;
         default := default_of (defaultValue paramConfig);
         filter := None; validate := v |}
  end.

(** [createPromptsFromParameters] *)
Definition createPromptsFromParameters (entries : list (string * ParameterConfig.t))
    (options : CollectionOptions) : list Question :=
  map (createPrompt options) entries.

(** The [switch (type)] conversion of [validateAndConvertParameters]. *)
Definition convertValue (paramName : string) (t : ParameterType) (finalValue : jsval)
    : jserror + jsval :=
  match t with
  | PTString => inr (JStr (js_String finalValue))
  | PTNumber =>
      let numValue := ToNumber finalValue in
      if isNaN numValue then
        inl (ParameterValidationError
               ("Invalid number value for parameter '" +s+ paramName +s+ "': " +s+ js_String finalValue)
               (Some paramName))
      else inr (JNum numValue)
  | PTBoolean =>
      match finalValue with
      | JBool b => inr (JBool b)
      | JStr s =>
          let boolValue := toLowerCase s in
          if String.eqb boolValue "true" || String.eqb boolValue "yes" || String.eqb boolValue "1" then
            inr (JBool true)
          else if String.eqb boolValue "false" || String.eqb boolValue "no" || String.eqb boolValue "0" then
            inr (JBool false)
          else
            inl (ParameterValidationError
                   ("Invalid boolean value for parameter '" +s+ paramName +s+ "': " +s+ s)
                   (Some paramName))
      | _ => inr (JBool (ToBoolean finalValue))
      end
  end.

(** The default substitution of [validateAndConvertParameters]. *)
Definition final_value (rawValue : jsval) (config : ParameterConfig.t) : jsval :=
  if (is_str "" rawValue || is_undefined rawValue) && negb (required config) then
    match defaultValue config with Some d => JStr d | None => rawValue end
  else rawValue.

(** The loop body of [validateAndConvertParameters] on one entry. *)
Definition convert_entry (rawAnswers : list (string * jsval))
    (parameters : list (string * jsval)) (entry : string * ParameterConfig.t)
    : jserror + list (string * jsval) :=
  let '(paramName, paramConfig) := entry in
  let finalValue := final_value (obj_get paramName rawAnswers) paramConfig in
  if negb (required paramConfig) && (is_str "" finalValue || is_undefined finalValue) then
    inr parameters
  else
    match convertValue paramName (type paramConfig) finalValue with
    | inl e => inl e
    | inr v =>
        let parameters' := obj_set paramName v parameters in
        match validateParameterValue paramName (obj_get paramName parameters') paramConfig with
        | Some e => inl e
        | None => inr parameters'
        end
    end.

(** [validateAndConvertParameters]: the [for] loop over the entries,
    stopping at the first throw. *)
Fixpoint convert_loop (rawAnswers : list (string * jsval))
    (entries : list (string * ParameterConfig.t)) (parameters : list (string * jsval))
    : jserror + list (string * jsval) :=
  match entries with
  | [] => inr parameters
  | entry :: rest =>
      match convert_entry rawAnswers parameters entry with
      | inl e => inl e
      | inr parameters' => convert_loop rawAnswers rest parameters'
      end
  end.

Definition validateAndConvertParameters (rawAnswers : list (string * jsval))
    (parameterConfigs : list (string * ParameterConfig.t)) : jserror + list (string * jsval) :=
  convert_loop rawAnswers parameterConfigs [].

(** [collectParameters].  [prompt] is [inquirer.prompt]: the answers the
    user gives to the questions. *)
Definition collectParameters (prompt : list Question -> list (string * jsval))
    (templateConfig : TemplateConfig.t) (options : CollectionOptions) : CollectionResult :=
  let parameterEntries := TemplateConfig.parameters templateConfig in
  match parameterEntries with
  | [] => {| parameters := []; success := true; error := None |}
  | _ =>
      let prompts := createPromptsFromParameters parameterEntries options in
      let rawAnswers := prompt prompts in
      match validateAndConvertParameters rawAnswers (TemplateConfig.parameters templateConfig) with
      | inr ps => {| parameters := ps; success := true; error := None |}
      | inl e => {| parameters := []; success := false; error := Some (error_message e) |}
      end
  end.

End Collect.

(** *** [inquirer.prompt]: the classic prompts of Inquirer.js

    The questions [createPromptsFromParameters] builds are [input] and
    [confirm] prompts.  The user's side of a session is, for each question
    name, the lines typed at that question's prompt, in order.  Parameter
    names are plain property names (no "." or "[" that [_.get] and
    [_.set] would read as a path, and none of the properties of
    [Object.prototype]), so the answers object is a plain map from names
    to answers. *)









Section Session.
Context `{JsNumeric}.


End Session.
End Collection.

(* ================================================================= *)
(** ** Regular expressions: [String.prototype.replace] with a global regex *)

(** The fragment of ECMAScript regular expressions used by
    [cleanupOutput], with the backtracking semantics of the standard
    (ECMA-262, 22.2.2): a matcher takes a position and a continuation and
    returns the end position of the first successful match in priority
    order.  Quantifiers are greedy. *)
Module Regex.

Inductive regex :=
| RClass (p : ascii -> bool)   (** one character of a class *)
| RSeq (r1 r2 : regex)         (** r1 r2 *)
| RAlt (r1 r2 : regex)         (** r1|r2 *)
| RStar (r : regex)            (** r* *)
| RPlus (r : regex)            (** r+ *)
| RBol                         (** ^ (no m flag: start of input) *)
| REol.                        (** $ (no m flag: end of input) *)

Section Match.
Variable input : list ascii.

(** RepeatMatcher with min = 0, max = infinity, greedy: try one more
    iteration (refusing an empty one), and fall back to the continuation.
    Every iteration consumes at least one character, so [fuel] =
    [length input + 1] never runs out. *)
Fixpoint star_loop (mr : nat -> (nat -> option nat) -> option nat)
    (fuel : nat) (i : nat) (k : nat -> option nat) : option nat :=
  match fuel with
  | O => k i
  | S f =>
      match mr i (fun j => if Nat.eqb j i then None else star_loop mr f j k) with
      | Some e => Some e
      | None => k i
      end
  end.

Fixpoint m (r : regex) (i : nat) (k : nat -> option nat) : option nat :=
  match r with
  | RClass p =>
      match nth_error input i with
      | Some c => if p c then k (S i) else None
      | None => None
      end
  | RSeq r1 r2 => m r1 i (fun j => m r2 j k)
  | RAlt r1 r2 =>
      match m r1 i k with
      | Some e => Some e
      | None => m r2 i k
      end
  | RStar r1 => star_loop (m r1) (S (length input)) i k
  | RPlus r1 => m r1 i (fun j => star_loop (m r1) (S (length input)) j k)
  | RBol => if Nat.eqb i 0 then k i else None
  | REol => if Nat.eqb i (length input) then k i else None
  end.

(** The end index of the match starting at [i], if any. *)
Definition exec (r : regex) (i : nat) : option nat := m r i (fun j => Some j).

(** [input.replace(/r/g, rep)]: scan from [lastIndex = 0]; at each
    position either a match is replaced by [rep] and the scan resumes at
    its end (one character further for an empty match), or the character
    is copied. *)
Fixpoint replace_from (r : regex) (rep : list ascii) (fuel i : nat) : list ascii :=
  match fuel with
  | O => []
  | S f =>
      match exec r i with
      | Some j =>
          rep ++ (if Nat.eqb j i then
                    match nth_error input i with
                    | Some c => c :: replace_from r rep f (S i)
                    | None => []
                    end
                  else replace_from r rep f j)
      | None =>
          match nth_error input i with
          | Some c => c :: replace_from r rep f (S i)
          | None => []
          end
      end
  end%list.

End Match.

Definition replace_all (input : list ascii) (r : regex) (rep : list ascii) : list ascii :=
  replace_from input r rep (S (length input)) 0.

End Regex.

Import Regex.

Definition LF : ascii := ascii_of_nat 10.
Definition SPACE : ascii := ascii_of_nat 32.
Definition TAB : ascii := ascii_of_nat 9.

Definition is_lf (c : ascii) : bool := Nat.eqb (nat_of_ascii c) 10.
Definition is_space_tab (c : ascii) : bool :=
  Nat.eqb (nat_of_ascii c) 32 || Nat.eqb (nat_of_ascii c) 9.

(** [/\n\s*\n\s*\n/g] *)
Definition blank_lines_re : regex :=
  RSeq (RClass is_lf) (RSeq (RStar (RClass is_ws))
    (RSeq (RClass is_lf) (RSeq (RStar (RClass is_ws)) (RClass is_lf)))).

(** [/^\s+|\s+$/g] *)
Definition trim_re : regex :=
  RAlt (RSeq RBol (RPlus (RClass is_ws))) (RSeq (RPlus (RClass is_ws)) REol).

(** [/[ \t]+/g] *)
Definition spaces_re : regex := RPlus (RClass is_space_tab).

(** [TemplateGenerator.cleanupOutput] *)
Definition cleanupOutput (output : string) : string :=
  let s0 := list_ascii_of_string output in
  let s1 := replace_all s0 blank_lines_re [LF; LF] in
  let s2 := replace_all s1 trim_re [] in
  let s3 := replace_all s2 spaces_re [SPACE] in
  string_of_list_ascii s3.

(** The post-processing as the specification describes it, written
    without regular expressions, to be compared with [cleanupOutput].  A
    gap is a maximal run of whitespace between two other characters (or
    at either end). *)
Module CleanupSpec.

Fixpoint count_lf (g : list ascii) : nat :=
  match g with
  | [] => 0
  | c :: t => (if is_lf c then 1 else 0) + count_lf t
  end.

(** The part of a gap before its first newline. *)
Fixpoint before_first_lf (g : list ascii) : list ascii :=
  match g with
  | [] => []
  | c :: t => if is_lf c then [] else c :: before_first_lf t
  end.

(** The part of a gap after its last newline (the whole gap when it has
    none). *)
Fixpoint after_last_lf (g : list ascii) : list ascii :=
  match g with
  | [] => []
  | c :: t => if existsb is_lf t then after_last_lf t else if is_lf c then t else c :: t
  end.

(** A gap with three or more newlines: its newlines, with the whitespace
    between them, become exactly two newlines. *)
Definition collapse_gap (g : list ascii) : list ascii :=
  if Nat.leb 3 (count_lf g) then (before_first_lf g ++ [LF; LF] ++ after_last_lf g)%list else g.

Fixpoint collapse_newlines_acc (gap l : list ascii) : list ascii :=
  match l with
  | [] => collapse_gap (rev gap)
  | c :: t =>
      if is_ws c then collapse_newlines_acc (c :: gap) t
      else (collapse_gap (rev gap) ++ c :: collapse_newlines_acc [] t)%list
  end.

(** Step 1: every gap collapsed by [collapse_gap]. *)
Definition collapse_newlines (l : list ascii) : list ascii := collapse_newlines_acc [] l.

(** Step 2: leading and trailing whitespace removed. *)
Definition trim_ws (l : list ascii) : list ascii := rev (drop_ws (rev (drop_ws l))).

Fixpoint collapse_spaces_from (in_run : bool) (l : list ascii) : list ascii :=
  match l with
  | [] => []
  | c :: t =>
      if is_space_tab c then
        if in_run then collapse_spaces_from true t else SPACE :: collapse_spaces_from true t
      else c :: collapse_spaces_from false t
  end.

(** Step 3: every run of spaces and tabs replaced by one space. *)
Definition collapse_spaces (l : list ascii) : list ascii := collapse_spaces_from false l.

Definition cleanup (output : string) : string :=
  string_of_list_ascii (collapse_spaces (trim_ws (collapse_newlines (list_ascii_of_string output)))).

End CleanupSpec.

(* ================================================================= *)
(** ** [src/utils/template-generation.ts] *)

(** A Handlebars helper function, as a function value. *)
Definition helper : Type := jsval.

Module GenerationOptions.

(** The [GenerationOptions] object: [None] for an absent property.  An
    option explicitly set to [undefined] is not represented: the model
    covers option objects whose properties are either absent or set to a
    value.  [maxTemplateSize] is an integer (a NaN size is not
    represented). *)
Record t := mk {
  includeHelpers : option bool;
  customHelpers : option (list (string * helper));
  strict : option bool;
  maxTemplateSize : option Z;
  noEscape : option bool
}.

Definition empty : t := mk None None None None None.

Definition pick {A} (o o' : option A) : option A :=
  match o' with Some x => Some x | None => o end.

(** [{ ...base, ...over }], for option objects without properties set to
    [undefined] (spread copies such a property, which overrides). *)
Definition merge (base over : t) : t :=
  mk (pick (includeHelpers base) (includeHelpers over))
     (pick (customHelpers base) (customHelpers over))
     (pick (strict base) (strict over))
     (pick (maxTemplateSize base) (maxTemplateSize over))
     (pick (noEscape base) (noEscape over)).
End GenerationOptions.

Module Generation.

(** What [Handlebars.compile(source, { strict, noEscape })] returns: a
    template function closed over its source and compile options.
    (Handlebars compiles lazily on the first call, so [compile] itself
    does not throw on a string source.) *)
Record Compiled := {
  c_source : string;
  c_strict : bool;
  c_noEscape : bool
}.

(** The process-global Handlebars environment: its helper table and the
    sequence of names passed to [Handlebars.registerHelper]. *)
Record Handlebars := {
  helpers : gmap string helper;
  registrations : list string
}.

Definition Handlebars_empty : Handlebars := {| helpers := ∅; registrations := [] |}.

(** [Handlebars.registerHelper(name, fn)] *)
Definition registerHelper (hb : Handlebars) (name : string) (fn : helper) : Handlebars :=
  {| helpers := <[name := fn]> (helpers hb); registrations := (registrations hb ++ [name])%list |}.

(** A [TemplateGenerator] instance: its constructor options and its two
    private fields. *)
Record TemplateGenerator := {
  options : GenerationOptions.t;
  compiledTemplates : gmap string Compiled;
  registeredHelpers : gset string
}.

Definition set_compiled (tg : TemplateGenerator) (cache : gmap string Compiled) : TemplateGenerator :=
  {| options := options tg; compiledTemplates := cache; registeredHelpers := registeredHelpers tg |}.

Definition set_registered (tg : TemplateGenerator) (names : gset string) : TemplateGenerator :=
  {| options := options tg; compiledTemplates := compiledTemplates tg; registeredHelpers := names |}.

(** The process state the generator methods act on. *)
Definition State : Type := TemplateGenerator * Handlebars.

(** A state monad with exceptions: a throw keeps the mutations made
    before it, as JavaScript does. *)
Definition M (A : Type) : Type := State -> (jserror + A) * State.

Definition ret {A} (x : A) : M A := fun st => (inr x, st).
Definition throw {A} (e : jserror) : M A := fun st => (inl e, st).
Definition bind {A B} (c : M A) (f : A -> M B) : M B :=
  fun st => match c st with
            | (inl e, st') => (inl e, st')
            | (inr x, st') => f x st'
            end.
Definition get_tg : M TemplateGenerator := fun st => (inr (fst st), st).
Definition put_tg (tg : TemplateGenerator) : M unit := fun st => (inr tt, (tg, snd st)).
Definition get_hb : M Handlebars := fun st => (inr (snd st), st).
Definition put_hb (hb : Handlebars) : M unit := fun st => (inr tt, (fst st, hb)).
Definition lift {A} (r : jserror + A) : M A := fun st => (r, st).

Notation "'let!' x := c 'in' k" := (bind c (fun x => k))
  (at level 200, x name, c at level 100, k at level 200).

(** [registerCustomHelpers]: the loop over [Object.entries(helpers)]. *)
Fixpoint registerCustomHelpers (hs : list (string * helper)) : M unit :=
  match hs with
  | [] => ret tt
  | (name, fn) :: rest =>
      let! tg := get_tg in
      let! _ := (if decide (name ∈ registeredHelpers tg) then ret tt
                 else let! hb := get_hb in
                      let! _ := put_hb (registerHelper hb name fn) in
                      put_tg (set_registered tg ({[name]} ∪ registeredHelpers tg))) in
      registerCustomHelpers rest
  end.

(** A sequence of [registerCustomHelpers] calls on one instance, as
    successive [generatePrompt] calls with [customHelpers] make them. *)
Fixpoint register_sequence (hss : list (list (string * helper))) : M unit :=
  match hss with
  | [] => ret tt
  | hs :: rest => let! _ := registerCustomHelpers hs in register_sequence rest
  end.

(** The helpers of [setupDefaultHelpers], by name. *)
Definition defaultHelpers : list (string * helper) :=
  map (fun n => (n, JFunction n))
    ["upper"; "lower"; "capitalize"; "eq"; "ne"; "gt"; "lt"; "json"; "length"; "default"].

(** [new TemplateGenerator(options)]: empty caches, then
    [setupDefaultHelpers]. *)
Definition new_TemplateGenerator (opts : GenerationOptions.t) (hb : Handlebars) : State :=
  snd (registerCustomHelpers defaultHelpers
         ({| options := opts; compiledTemplates := ∅; registeredHelpers := ∅ |}, hb)).

(** The size limit of [compileTemplate]: [this.options.maxTemplateSize || 100000]. *)
Definition maxSize (tg : TemplateGenerator) : Z :=
  match GenerationOptions.maxTemplateSize (options tg) with
  | Some n => if Z.eqb n 0 then 100000 else n
  | None => 100000
  end.

(** [compileTemplate] *)
Definition compileTemplate (templateConfig : TemplateConfig.t) (opts : GenerationOptions.t) : M Compiled :=
  let cacheKey := TemplateConfig.name templateConfig in
  let! tg := get_tg in
  match compiledTemplates tg !! cacheKey with
  | Some c => ret c
  | None =>
      let src := TemplateConfig.template templateConfig in
      if String.eqb src "" then
        throw (TemplateGenerationError
                 ("Invalid template content in '" +s+ TemplateConfig.name templateConfig
                  +s+ "': template must be a non-empty string")
                 (Some (TemplateConfig.name templateConfig)))
      else if Z.ltb (maxSize tg) (Z.of_nat (String.length src)) then
        throw (TemplateGenerationError
                 ("Template '" +s+ TemplateConfig.name templateConfig +s+ "' is too large: "
                  +s+ pretty (Z.of_nat (String.length src)) +s+ " characters (max: "
                  +s+ pretty (maxSize tg) +s+ ")")
                 (Some (TemplateConfig.name templateConfig)))
      else
        let c := {| c_source := src;
                    c_strict := default false (GenerationOptions.strict opts);
                    c_noEscape := default true (GenerationOptions.noEscape opts) |} in
        let! _ := put_tg (set_compiled tg (<[cacheKey := c]> (compiledTemplates tg))) in
        ret c
  end.

(** The properties every plain object inherits from [Object.prototype],
    which the [in] operator also sees. *)
Definition object_prototype_keys : list string :=
  ["constructor"; "hasOwnProperty"; "isPrototypeOf"; "propertyIsEnumerable";
   "toLocaleString"; "toString"; "valueOf"; "__proto__"; "__defineGetter__";
   "__defineSetter__"; "__lookupGetter__"; "__lookupSetter__"].

(** [key in obj] for a plain object. *)
Definition js_in (key : string) (o : list (string * jsval)) : bool :=
  existsb (String.eqb key) (map fst o) || existsb (String.eqb key) object_prototype_keys.

Definition utils : jsval :=
  JObject (map (fun n => (n, JFunction n))
             ["formatDate"; "toUpperCase"; "toLowerCase"; "capitalize"; "truncate"]).

Fixpoint check_required (params : list (string * ParameterConfig.t))
    (parameters : list (string * jsval)) : option jserror :=
  match params with
  | [] => None
  | (paramName, paramConfig) :: rest =>
      if ParameterConfig.required paramConfig && negb (js_in paramName parameters) then
        Some (ValidationError ("Required parameter '" +s+ paramName +s+ "' is missing from context"))
      else check_required rest parameters
  end.

(** [prepareContext] *)
Definition prepareContext (parameters : list (string * jsval)) (templateConfig : TemplateConfig.t)
    (opts : GenerationOptions.t) : jserror + list (string * jsval) :=
  let context := obj_set "_template"
                   (JObject [("name", JStr (TemplateConfig.name templateConfig));
                             ("description", JStr (TemplateConfig.description templateConfig))])
                   parameters in
  let context := if negb (Bool.eqb (default true (GenerationOptions.includeHelpers opts)) false)
                 then obj_set "_utils" utils context else context in
  match check_required (TemplateConfig.parameters templateConfig) parameters with
  | Some e => inl e
  | None => inr context
  end.

(** The Handlebars runtime: calling a compiled template with the global
    helper table and a context either throws or returns a value. *)
Definition Runtime : Type := gmap string helper -> Compiled -> list (string * jsval) -> jserror + jsval.

(** [context._template?.name || "unknown"] *)
Definition template_name_of (context : list (string * jsval)) : string :=
  match get (obj_get "_template" context) "name" with
  | JStr n => if String.eqb n "" then "unknown" else n
  | _ => "unknown"
  end.

(** [renderTemplate] *)
Definition renderTemplate (run : Runtime) (compiled : Compiled)
    (context : list (string * jsval)) : M string :=
  let! hb := get_hb in
  match run (helpers hb) compiled context with
  | inl e =>
      throw (TemplateGenerationError ("Template rendering failed: " +s+ error_message e)
               (Some (template_name_of context)))
  | inr (JStr output) => ret (cleanupOutput output)
  | inr _ =>
      throw (TemplateGenerationError
               "Template rendering failed: Template rendering produced non-string output"
               (Some (template_name_of context)))
  end.

Record Metadata := {
  templateName : string;
  parametersUsed : list string;
  generationTime : Z
}.

Record GenerationResult := {
  output : string;
  success : bool;
  context : list (string * jsval);
  error : option string;
  metadata : Metadata
}.

(** The body of the [try] block of [generatePrompt]. *)
Definition generate_body (run : Runtime) (templateConfig : TemplateConfig.t)
    (parameters : list (string * jsval)) (mergedOptions : GenerationOptions.t)
    : M (string * list (string * jsval)) :=
  let! compiledTemplate := compileTemplate templateConfig mergedOptions in
  let! context := lift (prepareContext parameters templateConfig mergedOptions) in
  let! _ := match GenerationOptions.customHelpers mergedOptions with
            | Some hs => registerCustomHelpers hs
            | None => ret tt
            end in
  let! out := renderTemplate run compiledTemplate context in
  ret (out, context).

(** [generatePrompt].  [startTime] and [endTime] are the two readings of
    [Date.now()]. *)
Definition generatePrompt (run : Runtime) (templateConfig : TemplateConfig.t)
    (parameters : list (string * jsval)) (opts : GenerationOptions.t)
    (startTime endTime : Z) (st : State) : GenerationResult * State :=
  let mergedOptions := GenerationOptions.merge (options (fst st)) opts in
  let md := {| templateName := TemplateConfig.name templateConfig;
               parametersUsed := map fst parameters;
               generationTime := endTime - startTime |} in
  match generate_body run templateConfig parameters mergedOptions st with
  | (inr (out, ctx), st') =>
      ({| output := out; success := true; context := ctx; error := None; metadata := md |}, st')
  | (inl e, st') =>
      ({| output := ""; success := false; context := []; error := Some (error_message e);
          metadata := md |}, st')
  end.

End Generation.

(* ================================================================= *)
(** ** [TemplateRegistry] ([src/unnamed/part_002]) *)

Module Discovery.

Record TemplateDefinition := {
  name : string;
  config : TemplateConfig.t;
  filePath : string
}.

(** A [DiscoveryResult] object.  [result_id] is the object's identity:
    the number of the [discoverTemplates] call that allocated it. *)
Record DiscoveryResult := {
  result_id : nat;
  templates : gmap string TemplateDefinition;
  errors : list string
}.

(** The templates directory as the [n]-th [discoverTemplates] call reads
    it: the templates it loads and the errors it collects.
    [discoverTemplates] catches every error, so its promise always
    resolves. *)
Definition FileSystem : Type := nat -> gmap string TemplateDefinition * list string.

(** [_performDiscovery()], the [n]-th scan. *)
Definition performDiscovery (fs : FileSystem) (n : nat) : DiscoveryResult :=
  {| result_id := n; templates := fst (fs n); errors := snd (fs n) |}.

End Discovery.

Module TemplateRegistry.
Import Discovery.

(** The fields of a registry, with [scans] counting the
    [_performDiscovery] calls made so far; a promise is named by the
    number of its scan. *)
Record t := mk {
  templates : gmap string TemplateDefinition;
  lastDiscovery : option DiscoveryResult;
  discoveryPromise : option nat;
  scans : nat
}.

Definition empty : t := mk ∅ None None 0.

(** How a [discover] call proceeds up to its first [await] or return:
    it returns the cached object, joins the promise in flight, or starts
    scan [p] and awaits it. *)
Inductive Call :=
| Cached (r : DiscoveryResult)
| Joined (p : nat)
| Started (p : nat).

(** [discover(force)], up to its [await]. *)
Definition discover (force : bool) (st : t) : Call * t :=
  match force, lastDiscovery st with
  | false, Some r => (Cached r, st)
  | _, _ =>
      match discoveryPromise st with
      | Some p => (Joined p, st)
      | None => (Started (scans st), mk (templates st) (lastDiscovery st) (Some (scans st)) (S (scans st)))
      end
  end.

(** The rest of the [discover] call that started scan [p], run when the
    scan resolves: the [try] block and the [finally]. *)
Definition discover_resume (fs : FileSystem) (p : nat) (st : t) : DiscoveryResult * t :=
  let result := performDiscovery fs p in
  (result, mk (Discovery.templates result) (Some result) None (scans st)).

(** The value a call's promise resolves to. *)
Definition call_value (fs : FileSystem) (c : Call) : DiscoveryResult :=
  match c with
  | Cached r => r
  | Joined p | Started p => performDiscovery fs p
  end.

(** [refresh()], up to the [await] of its [discover(true)].  ([clear()]
    also empties the map that the previous result object shares; no
    statement below reads an old result's map after a refresh.) *)
Definition refresh (st : t) : Call * t :=
  discover true (mk ∅ None (discoveryPromise st) (scans st)).

End TemplateRegistry.

(* ================================================================= *)
(** ** [displayCollectedParameters] ([src/unnamed/part_001]) *)

Module CollectionDisplay.
Section Display.
Context `{JsNumeric}.

(** The emoji of the header line and the bullet of each parameter line,
    characters outside the Latin-1 range of the model. *)
Variables header_icon bullet : string.

(** The [displayValue] of one parameter. *)
Definition displayValue (value : jsval) : string :=
  match value with
  | JStr s => if Nat.ltb 50 (String.length s) then String.substring 0 47 s +s+ "..." else s
  | _ => js_String value
  end.

(** The lines [displayCollectedParameters] prints. *)
Definition displayCollectedParameters (parameters : list (string * jsval)) (templateName : string)
    : list string :=
  (header_icon +s+ " Collected parameters for template '" +s+ templateName +s+ "':") ::
  match parameters with
  | [] => ["  (No parameters)"]
  | _ => (map (fun '(name, value) => "  " +s+ bullet +s+ " " +s+ name +s+ ": " +s+ displayValue value)
             parameters ++ [""])%list
  end.

End Display.
End CollectionDisplay.

(* ================================================================= *)
(** ** [src/utils/template-discovery.ts] ([src/unnamed/part_001]) *)

(** [s.endsWith(suffix)] *)
Definition ends_with (s suffix : string) : bool :=
  Nat.leb (String.length suffix) (String.length s) &&
  String.eqb (String.substring (String.length s - String.length suffix) (String.length suffix) s) suffix.

(** The order of [Array.prototype.sort] without a comparator on strings:
    code unit by code unit, a proper prefix first. *)
Definition string_le (s1 s2 : string) : Prop := String.leb s1 s2 = true.

#[export] Instance string_le_dec : RelDecision string_le :=
  fun s1 s2 => decide (String.leb s1 s2 = true).

(** [getTemplateNames(templates)]: [Array.from(templates.keys()).sort()].
    The keys of a map are distinct and the order is total, so every
    sorting algorithm returns this list, whatever the insertion order of
    the [Map]. *)
Definition getTemplateNames {A} (templates : gmap string A) : list string :=
  merge_sort string_le (map_to_list templates).*1.

(** [getTemplate(templates, templateName)] *)
Definition getTemplate {A} (templates : gmap string A) (templateName : string) : option A :=
  templates !! templateName.

Module TemplateDiscovery.

(** A node of the file system as [readdir(dir, { withFileTypes: true })]
    reports it.  [FUnreadable msg] is a directory whose listing fails with
    message [msg]; [FOther] is an entry that is neither a regular file nor
    a directory (a symbolic link, a socket).  The root is the node the
    templates path resolves to. *)
Inductive fsnode :=
| FFile
| FDir (entries : list (string * fsnode))
| FUnreadable (msg : string)
| FOther.

(** [entry.isDirectory()] and [entry.isFile()] *)
Definition is_directory (n : fsnode) : bool :=
  match n with FDir _ | FUnreadable _ => true | _ => false end.
Definition is_file (n : fsnode) : bool :=
  match n with FFile => true | _ => false end.

(** The message of [readdir] on a path that is not a directory. *)
Definition enotdir (dir : string) : string :=
  "ENOTDIR: not a directory, scandir '" +s+ dir +s+ "'".

(** [join(dir, name)] of a resolved directory path and a name [readdir]
    returned (non-empty, not "." or "..", without "/"). *)
Definition path_join (dir name : string) : string :=
  if ends_with dir "/" then dir +s+ name else dir +s+ "/" +s+ name.

(** The loop of [findTemplateFiles] over the entries of [dir], [find]
    being the recursive call.  [inl msg]: a [FileSystemError] with
    message [msg] is thrown. *)
Definition find_entries (find : string -> fsnode -> string + list string)
    (dir extension : string) : list (string * fsnode) -> string + list string :=
  fix loop (es : list (string * fsnode)) : string + list string :=
    match es with
    | [] => inr []
    | (ename, child) :: rest =>
        let filePath := path_join dir ename in
        if is_directory child then
          match find filePath child with
          | inl msg => inl ("Failed to read directory " +s+ dir +s+ ": " +s+ msg)
          | inr subFiles =>
              match loop rest with
              | inl msg => inl msg
              | inr files => inr (subFiles ++ files)%list
              end
          end
        else if is_file child && ends_with ename extension then
          match loop rest with
          | inl msg => inl msg
          | inr files => inr (filePath :: files)
          end
        else loop rest
    end.

(** [findTemplateFiles(dir, extension)] *)
Fixpoint findTemplateFiles (dir extension : string) (node : fsnode) {struct node}
    : string + list string :=
  match node with
  | FDir entries => find_entries (fun p c => findTemplateFiles p extension c) dir extension entries
  | FUnreadable msg => inl ("Failed to read directory " +s+ dir +s+ ": " +s+ msg)
  | _ => inl ("Failed to read directory " +s+ dir +s+ ": " +s+ enotdir dir)
  end.

(** A value thrown while a template module is imported: an instance of
    [ValidationError] or of [FileSystemError], another [Error], or a value
    that is not an [Error] (by [String(value)]). *)
Inductive thrown :=
| TValidation (message : string)
| TFileSystem (message : string)
| TError (message : string)
| TNonError (text : string).

(** [error instanceof Error ? error.message : String(error)] *)
Definition thrown_message (e : thrown) : string :=
  match e with TValidation m | TFileSystem m | TError m => m | TNonError s => s end.

Record TemplateDefinition := {
  name : string;
  config : jsval;
  filePath : string
}.

(** [config.name] of a validated configuration. *)
Definition name_of (config : jsval) : string :=
  match get config "name" with JStr s => s | _ => "" end.

(** [loadTemplate(filePath)].  [import_module] is the dynamic [import()]:
    the module namespace object, or what evaluating the module throws. *)
Definition loadTemplate (import_module : string -> thrown + jsval) (filePath : string)
    : thrown + TemplateDefinition :=
  match import_module filePath with
  | inl (TValidation m) => inl (TValidation m)
  | inl e => inl (TError ("Failed to load template from " +s+ filePath +s+ ": " +s+ thrown_message e))
  | inr templateModule =>
      let config := if ToBoolean (get templateModule "default") then get templateModule "default"
                    else get templateModule "config" in
      if negb (ToBoolean config) then
        inl (TValidation "Template file must export a default config or named 'config' export")
      else if negb (Types.isValidTemplateConfig config) then
        inl (TValidation "Template configuration does not match required structure")
      else inr {| name := name_of config; config := config; filePath := filePath |}
  end.

Inductive ErrorType := Load | Validation | FileSystem.

(** A [TemplateDiscoveryError] ([originalError] is read nowhere). *)
Module DiscoveryError.
Record t := mk {
  filePath : string;
  type : ErrorType;
  message : string
}.
End DiscoveryError.

(** [createDiscoveryError(filePath, error)] *)
Definition createDiscoveryError (filePath : string) (error : thrown) : DiscoveryError.t :=
  match error with
  | TValidation m => DiscoveryError.mk filePath Validation m
  | TFileSystem m => DiscoveryError.mk filePath FileSystem m
  | TError m | TNonError m => DiscoveryError.mk filePath Load ("Failed to load template: " +s+ m)
  end.

Record DiscoveryResult := {
  templates : gmap string TemplateDefinition;
  errors : list DiscoveryError.t
}.

(** The loop of [discoverTemplates] over the template files. *)
Fixpoint load_all (import_module : string -> thrown + jsval) (files : list string)
    (templates : gmap string TemplateDefinition) (errors : list DiscoveryError.t) : DiscoveryResult :=
  match files with
  | [] => {| templates := templates; errors := errors |}
  | fp :: rest =>
      match loadTemplate import_module fp with
      | inr template => load_all import_module rest (<[name template := template]> templates) errors
      | inl error => load_all import_module rest templates (errors ++ [createDiscoveryError fp error])%list
      end
  end.

(** [discoverTemplates({ templatesDir, extension })].  [resolve] is
    [path.resolve] and [fs] gives the node at an absolute path.  (The
    defaults of the options are [getTemplatesDirectory()] and [".ts"].) *)
Definition discoverTemplates (resolve : string -> string) (fs : string -> fsnode)
    (import_module : string -> thrown + jsval) (templatesDir extension : string) : DiscoveryResult :=
  let templatesPath := resolve templatesDir in
  match findTemplateFiles templatesPath extension (fs templatesPath) with
  | inl msg =>
      {| templates := ∅;
         errors := [DiscoveryError.mk templatesDir FileSystem ("Failed to access templates directory: " +s+ msg)] |}
  | inr templateFiles => load_all import_module templateFiles ∅ []
  end.

End TemplateDiscovery.

(* ================================================================= *)
(** ** The query methods of [TemplateRegistry] ([src/unnamed/part_002]) *)

Module RegistryQueries.
Import Discovery.

(** [getTemplateNamesSync()] *)
Definition getTemplateNamesSync (st : TemplateRegistry.t) : list string :=
  getTemplateNames (TemplateRegistry.templates st).

(** [getDiscoveryErrors()] *)
Definition getDiscoveryErrors (st : TemplateRegistry.t) : list string :=
  match TemplateRegistry.lastDiscovery st with Some r => errors r | None => [] end.

(** [hasDiscoveryErrors()] *)
Definition hasDiscoveryErrors (st : TemplateRegistry.t) : bool :=
  Nat.ltb 0 (length (getDiscoveryErrors st)).

Record DiscoverySummary := {
  discovered : bool;
  templateCount : nat;
  errorCount : nat;
  hasErrors : bool
}.

(** [getDiscoverySummary()] *)
Definition getDiscoverySummary (st : TemplateRegistry.t) : DiscoverySummary :=
  match TemplateRegistry.lastDiscovery st with
  | None => {| discovered := false; templateCount := 0; errorCount := 0; hasErrors := false |}
  | Some r => {| discovered := true; templateCount := size (templates r);
                 errorCount := length (errors r); hasErrors := Nat.ltb 0 (length (errors r)) |}
  end.

(** The registry states reachable from [new TemplateRegistry()]: a
    [discover] or [refresh] call runs up to its [await], and the call
    that started scan [p] resumes when the scan resolves. *)
Inductive reachable (fs : FileSystem) : TemplateRegistry.t -> Prop :=
| reach_new : reachable fs TemplateRegistry.empty
| reach_discover force st : reachable fs st -> reachable fs (snd (TemplateRegistry.discover force st))
| reach_refresh st : reachable fs st -> reachable fs (snd (TemplateRegistry.refresh st))
| reach_resume p st : TemplateRegistry.discoveryPromise st = Some p -> reachable fs st ->
    reachable fs (snd (TemplateRegistry.discover_resume fs p st)).

End RegistryQueries.

(* ================================================================= *)
(** ** [clearCache] and [getCacheStats] of [TemplateGenerator] *)

Module GenerationCache.
Import Generation.

(** [clearCache()] *)
Definition clearCache (tg : TemplateGenerator) : TemplateGenerator := set_compiled tg ∅.

Module CacheStats.
Record t := mk { cachedTemplates : nat; registeredHelpers : nat }.
End CacheStats.

(** [getCacheStats()] *)
Definition getCacheStats (tg : TemplateGenerator) : CacheStats.t :=
  CacheStats.mk (size (compiledTemplates tg)) (size (registeredHelpers tg)).

End GenerationCache.

(* ================================================================= *)
(** * Proofs *)

Module TypesProofs.
Import Types.







End TypesProofs.

Module CollectionProofs.
Import ParameterConfig Collection.

Lemma assoc_get_obj_set_eq (k : string) (v : jsval) (o : list (string * jsval)) :
  assoc_get k (obj_set k v o) = Some v.
Proof.
  induction o as [|[k' v'] t IH]; simpl.
  - by rewrite String.eqb_refl.
  - destruct (String.eqb k k') eqn:E; simpl.
    + by rewrite E.
    + by rewrite E.
Qed.

Lemma assoc_get_obj_set_ne (k k' : string) (v : jsval) (o : list (string * jsval)) :
  k <> k' -> assoc_get k' (obj_set k v o) = assoc_get k' o.
Proof.
  intros Hne. induction o as [|[k0 v0] t IH]; simpl.
  - apply String.eqb_neq in Hne. rewrite String.eqb_sym, Hne. reflexivity.
  - destruct (String.eqb k k0) eqn:E; simpl.
    + apply String.eqb_eq in E; subst k0.
      apply String.eqb_neq in Hne. rewrite String.eqb_sym, Hne. reflexivity.
    + destruct (String.eqb k' k0); [reflexivity|apply IH].
Qed.

Lemma obj_get_obj_set_eq (k : string) (v : jsval) (o : list (string * jsval)) :
  obj_get k (obj_set k v o) = v.
Proof. unfold obj_get. by rewrite assoc_get_obj_set_eq. Qed.

(** A converted boolean always passes the final [validateParameterValue]. *)
Lemma validate_bool `{JsNumeric} (paramName : string) (cfg : ParameterConfig.t) (b : bool) :
  type cfg = PTBoolean -> validateParameterValue paramName (JBool b) cfg = None.
Proof.
  intros Hty. unfold validateParameterValue. cbn.
  rewrite andb_false_r, andb_false_r, Hty. reflexivity.
Qed.


(** The conversion of a boolean-typed parameter by the loop body: an
    optional parameter whose value after default substitution is [""] or
    [undefined] is skipped; any other value goes through the boolean
    [switch] case and the result is stored, or its error thrown. *)
Lemma convert_entry_boolean `{JsNumeric} (rawAnswers ps : list (string * jsval))
    (paramName : string) (cfg : ParameterConfig.t) (Hty : type cfg = PTBoolean) :
  let fv := final_value (obj_get paramName rawAnswers) cfg in
  let res := convert_entry rawAnswers ps (paramName, cfg) in
  (required cfg = false -> (fv = JStr "" \/ fv = JUndefined) -> res = inr ps) /\
  (required cfg = true \/ (fv <> JStr "" /\ fv <> JUndefined) ->
     (forall b, fv = JBool b -> res = inr (obj_set paramName (JBool b) ps)) /\
     (forall s, fv = JStr s -> In (toLowerCase s) ["true"; "yes"; "1"] ->
        res = inr (obj_set paramName (JBool true) ps)) /\
     (forall s, fv = JStr s -> In (toLowerCase s) ["false"; "no"; "0"] ->
        res = inr (obj_set paramName (JBool false) ps)) /\
     (forall s, fv = JStr s -> ~ In (toLowerCase s) ["true"; "yes"; "1"; "false"; "no"; "0"] ->
        exists msg, res = inl (ParameterValidationError msg (Some paramName))) /\
     ((forall b, fv <> JBool b) -> (forall s, fv <> JStr s) ->
        res = inr (obj_set paramName (JBool (ToBoolean fv)) ps))).
Proof.
  intros fv res. subst res. unfold convert_entry. fold fv. clearbody fv.
  split.
  - intros Hr [-> | ->]; rewrite Hr; reflexivity.
  - intros Hreach.
    assert (Hgo : (negb (required cfg) && (is_str "" fv || is_undefined fv)) = false).
    { destruct Hreach as [Hr | [H1 H2]]; [by rewrite Hr|].
      destruct (required cfg); [reflexivity|]; cbn.
      destruct fv as [| | | |s0| | |]; try reflexivity; try congruence.
      cbn. rewrite orb_false_r. apply String.eqb_neq. congruence. }
    rewrite Hgo, Hty. cbn [convertValue].
    split; [|split; [|split; [|split]]].
    + intros b ->. by rewrite obj_get_obj_set_eq, validate_bool.
    + intros s -> Hin. cbn.
      destruct (String.eqb (toLowerCase s) "true") eqn:E1;
      destruct (String.eqb (toLowerCase s) "yes") eqn:E2;
      destruct (String.eqb (toLowerCase s) "1") eqn:E3; cbn;
        try (by rewrite obj_get_obj_set_eq, validate_bool).
      exfalso. apply String.eqb_neq in E1, E2, E3.
      destruct Hin as [?|[?|[?|[]]]]; congruence.
    + intros s -> Hin. cbn.
      destruct Hin as [Hs|[Hs|[Hs|[]]]]; rewrite <- Hs; cbn;
        by rewrite obj_get_obj_set_eq, validate_bool.
    + intros s -> Hnin. cbn.
      destruct (String.eqb_spec (toLowerCase s) "true"); [exfalso; apply Hnin; left; done|].
      destruct (String.eqb_spec (toLowerCase s) "yes"); [exfalso; apply Hnin; right; left; done|].
      destruct (String.eqb_spec (toLowerCase s) "1"); [exfalso; apply Hnin; do 2 right; left; done|].
      destruct (String.eqb_spec (toLowerCase s) "false"); [exfalso; apply Hnin; do 3 right; left; done|].
      destruct (String.eqb_spec (toLowerCase s) "no"); [exfalso; apply Hnin; do 4 right; left; done|].
      destruct (String.eqb_spec (toLowerCase s) "0"); [exfalso; apply Hnin; do 5 right; left; done|].
      cbn. eexists; reflexivity.
    + intros Hb Hs.
      destruct fv as [| | b | | s | | |];
        try (exfalso; by eapply Hb); try (exfalso; by eapply Hs);
        by rewrite obj_get_obj_set_eq, validate_bool.
Qed.

(** ** Required parameters and their [defaultValue] *)

(** C3 (the code's behaviour at the failing input): the question built
    for a required parameter that has a [defaultValue] still carries that
    default.  Inquirer answers an empty input with it (and the number
    filter substitutes it), although the message path and the final
    substitution both skip the default of a required parameter. *)
Theorem required_prompt_uses_default `{JsNumeric} (options : CollectionOptions)
    (paramName desc d : string) :
  default (createPrompt options (paramName, ParameterConfig.mk desc true (Some d) PTString)) = JStr d /\
  default (createPrompt options (paramName, ParameterConfig.mk desc true (Some d) PTNumber)) = JStr d /\
  (forall f, filter (createPrompt options (paramName, ParameterConfig.mk desc true (Some d) PTNumber)) = Some f ->
             f "" = JStr d) /\
  default (createPrompt options (paramName, ParameterConfig.mk desc true (Some d) PTBoolean))
    = JBool (String.eqb d "true") /\
  (forall t, final_value (JStr "") (ParameterConfig.mk desc true (Some d) t) = JStr "").
Proof.
  split; [reflexivity|]. split; [reflexivity|]. split.
  - intros f Hf. cbn in Hf. injection Hf as <-. reflexivity.
  - split; [reflexivity|]. intros t. reflexivity.
Qed.

(** ** Blank answers *)





(** ** Inquirer sessions *)























End CollectionProofs.

Module GenerationProofs.
Import Generation.

Definition after {A} (c : M A) (st : State) : State := snd (c st).

Lemma registerCustomHelpers_cons name fn rest tg hb :
  registerCustomHelpers ((name, fn) :: rest) (tg, hb) =
  if decide (name ∈ registeredHelpers tg) then registerCustomHelpers rest (tg, hb)
  else registerCustomHelpers rest
         (set_registered tg ({[name]} ∪ registeredHelpers tg), registerHelper hb name fn).
Proof. cbn. destruct (decide _); reflexivity. Qed.

Lemma registerCustomHelpers_spec hs : forall tg hb,
  let r := registerCustomHelpers hs (tg, hb) in
  fst r = inr tt /\
  options (fst (snd r)) = options tg /\
  compiledTemplates (fst (snd r)) = compiledTemplates tg /\
  exists new,
    registrations (snd (snd r)) = (registrations hb ++ new)%list /\
    NoDup new /\
    (forall n, n ∈ new -> n ∉ registeredHelpers tg) /\
    (forall n, n ∈ new -> n ∈ map fst hs) /\
    registeredHelpers (fst (snd r)) = list_to_set new ∪ registeredHelpers tg.
Proof.
  induction hs as [|[name fn] rest IH]; intros tg hb; cbv zeta.
  - cbn. split; [reflexivity|]. split; [reflexivity|]. split; [reflexivity|].
    exists []. rewrite app_nil_r. repeat split; try set_solver. constructor.
  - rewrite registerCustomHelpers_cons. destruct (decide _) as [Hin|Hnin].
    + destruct (IH tg hb) as (Hr & Ho & Hc & new & Hl & Hnd & Hf & Hm & Hs).
      repeat split; auto. exists new. repeat split; auto.
      intros n Hn. apply elem_of_cons. right. auto.
    + destruct (IH (set_registered tg ({[name]} ∪ registeredHelpers tg)) (registerHelper hb name fn))
        as (Hr & Ho & Hc & new & Hl & Hnd & Hf & Hm & Hs).
      repeat split; auto. exists (name :: new). cbn in Hl, Hf, Hs. repeat split.
      * rewrite Hl. rewrite <- app_assoc. reflexivity.
      * constructor; [|exact Hnd]. intros Hn. apply (Hf name Hn). set_solver.
      * intros n Hn. apply elem_of_cons in Hn as [->|Hn]; [exact Hnin|]. 
        intros Hn'. apply (Hf n Hn). set_solver.
      * intros n Hn. apply elem_of_cons in Hn as [->|Hn]; [apply elem_of_cons; left; reflexivity|apply elem_of_cons; right; auto].
      * rewrite Hs. set_solver.
Qed.

Lemma register_sequence_spec hss : forall tg hb L0 D,
  registrations hb = (L0 ++ D)%list -> NoDup D -> registeredHelpers tg = list_to_set D ->
  exists D'',
    registrations (snd (after (register_sequence hss) (tg, hb))) = (L0 ++ D ++ D'')%list /\
    NoDup (D ++ D'') /\
    registeredHelpers (fst (after (register_sequence hss) (tg, hb))) = list_to_set (D ++ D'').
Proof.
  induction hss as [|hs rest IH]; intros tg hb L0 D Hl Hnd Hs.
  - exists []. rewrite !app_nil_r. auto.
  - destruct (registerCustomHelpers_spec hs tg hb) as (Hr & _ & _ & new & Hl' & Hnd' & Hf & _ & Hs').
    unfold after in *. cbn [register_sequence]. unfold bind.
    destruct (registerCustomHelpers hs (tg, hb)) as [r [tg' hb']] eqn:E. cbn in Hr, Hl', Hs'. subst r.
    destruct (IH tg' hb' L0 (D ++ new)%list) as (D3 & H1 & H2 & H3).
    + rewrite Hl', Hl, app_assoc. reflexivity.
    + apply NoDup_app. split; [exact Hnd|]. split; [|exact Hnd'].
      intros n HD Hn. apply (Hf n Hn). rewrite Hs. apply elem_of_list_to_set. exact HD.
    + rewrite Hs', Hs, list_to_set_app_L. set_solver.
    + exists (new ++ D3)%list. rewrite !app_assoc. split; [|split]; [rewrite H1, !app_assoc; reflexivity|exact H2|exact H3].
Qed.

(** Names the instance has registered are skipped: the call changes
    nothing. *)
Lemma registerCustomHelpers_skip hs : forall tg hb,
  (forall n, n ∈ map fst hs -> n ∈ registeredHelpers tg) ->
  registerCustomHelpers hs (tg, hb) = (inr tt, (tg, hb)).
Proof.
  induction hs as [|[name fn] rest IH]; intros tg hb Hall; [reflexivity|].
  rewrite registerCustomHelpers_cons. destruct (decide _) as [_|Hn].
  - apply IH. intros n Hn. apply Hall. apply elem_of_cons. right. exact Hn.
  - exfalso. apply Hn. apply Hall. apply elem_of_cons. left. reflexivity.
Qed.

Lemma registerCustomHelpers_fresh hs : forall tg hb,
  NoDup (map fst hs) -> (forall n, n ∈ map fst hs -> n ∉ registeredHelpers tg) ->
  registrations (snd (after (registerCustomHelpers hs) (tg, hb))) = (registrations hb ++ map fst hs)%list /\
  registeredHelpers (fst (after (registerCustomHelpers hs) (tg, hb))) = list_to_set (map fst hs) ∪ registeredHelpers tg.
Proof.
  induction hs as [|[name fn] rest IH]; intros tg hb Hnd Hf; unfold after.
  - cbn. rewrite app_nil_r. split; [reflexivity|]. set_solver.
  - rewrite registerCustomHelpers_cons. cbn [map fst] in Hnd, Hf.
    apply NoDup_cons in Hnd as [Hnin Hnd].
    destruct (decide _) as [Hin|_].
    + exfalso. apply (Hf name); [apply elem_of_cons; left; reflexivity | exact Hin].
    + destruct (IH (set_registered tg ({[name]} ∪ registeredHelpers tg)) (registerHelper hb name fn))
        as [Hl Hs]; [exact Hnd| |].
      * intros n Hn. cbn. apply not_elem_of_union. split.
        -- apply not_elem_of_singleton. intros ->. exact (Hnin Hn).
        -- apply Hf. apply elem_of_cons. right. exact Hn.
      * unfold after in Hl, Hs. rewrite Hl, Hs. cbn. split.
        -- rewrite <- app_assoc. reflexivity.
        -- set_solver.
Qed.

Lemma new_TemplateGenerator_spec opts hb :
  registrations (snd (new_TemplateGenerator opts hb)) = (registrations hb ++ map fst defaultHelpers)%list /\
  registeredHelpers (fst (new_TemplateGenerator opts hb)) = list_to_set (map fst defaultHelpers) /\
  compiledTemplates (fst (new_TemplateGenerator opts hb)) = ∅ /\
  options (fst (new_TemplateGenerator opts hb)) = opts.
Proof.
  unfold new_TemplateGenerator.
  destruct (registerCustomHelpers_fresh defaultHelpers
              {| options := opts; compiledTemplates := ∅; registeredHelpers := ∅ |} hb)
    as [Hl Hs].
  - apply (bool_decide_unpack _). vm_compute. reflexivity.
  - intros n _. cbn. apply not_elem_of_empty.
  - destruct (registerCustomHelpers_spec defaultHelpers
                {| options := opts; compiledTemplates := ∅; registeredHelpers := ∅ |} hb)
      as (_ & Ho & Hc & _).
    unfold after in Hl, Hs. rewrite Hl, Hs.
    split; [reflexivity|]. split; [set_solver|]. split; [exact Hc|exact Ho].
Qed.

(** C2 (amended): helper registration is deduplicated per
    [TemplateGenerator] instance, not per process.  The constructor
    registers the ten default helpers, and they count as registered
    for that instance.  Over any sequence of [registerCustomHelpers]
    calls on one instance, the names that instance passes to
    [Handlebars.registerHelper] (the defaults first) contain no name
    twice, and a later call whose names the instance has already
    registered (a default one among them) changes nothing.  The
    [registeredHelpers] set is per instance, while the Handlebars table is
    global: every construction registers the ten defaults again, and a
    newly constructed instance registers any non-default name again,
    whatever the global table holds, its helper replacing the old one. *)
Theorem helper_registration_per_instance (opts : GenerationOptions.t) (hb : Handlebars)
    (hss : list (list (string * helper))) (name : string) (fn : helper)
    (Hname : name ∉ map fst defaultHelpers) :
  let st := after (register_sequence hss) (new_TemplateGenerator opts hb) in
  (exists names,
     registrations (snd st) = (registrations hb ++ map fst defaultHelpers ++ names)%list /\
     NoDup (map fst defaultHelpers ++ names) /\
     registeredHelpers (fst st) = list_to_set (map fst defaultHelpers ++ names)) /\
  (forall hs, (forall n, n ∈ map fst hs -> n ∈ registeredHelpers (fst st)) ->
     after (registerCustomHelpers hs) st = st) /\
  (forall hs, (forall n, n ∈ map fst hs -> n ∈ map fst defaultHelpers) ->
     after (registerCustomHelpers hs) st = st) /\
  length (map fst defaultHelpers) = 10 /\
  (forall (opts' : GenerationOptions.t) (hb' : Handlebars),
     let st' := new_TemplateGenerator opts' hb' in
     registrations (snd st') = (registrations hb' ++ map fst defaultHelpers)%list /\
     registrations (snd (after (registerCustomHelpers [(name, fn)]) st'))
       = (registrations (snd st') ++ [name])%list /\
     helpers (snd (after (registerCustomHelpers [(name, fn)]) st')) !! name = Some fn).
Proof.
  intros st.
  assert (HndD : NoDup (map fst defaultHelpers)) by (apply (bool_decide_unpack _); vm_compute; reflexivity).
  assert (Hseq : exists names,
     registrations (snd st) = (registrations hb ++ map fst defaultHelpers ++ names)%list /\
     NoDup (map fst defaultHelpers ++ names) /\
     registeredHelpers (fst st) = list_to_set (map fst defaultHelpers ++ names)).
  { subst st. destruct (new_TemplateGenerator_spec opts hb) as (Hl & Hs & _).
    destruct (new_TemplateGenerator opts hb) as [tg hb0] eqn:E. cbn in Hl, Hs.
    exact (register_sequence_spec hss tg hb0 (registrations hb) (map fst defaultHelpers) Hl HndD Hs). }
  clearbody st.
  destruct Hseq as (names & Hreg & Hnd & Hrs).
  assert (Hskip : forall hs, (forall n, n ∈ map fst hs -> n ∈ registeredHelpers (fst st)) ->
            after (registerCustomHelpers hs) st = st).
  { intros hs Hall. unfold after. destruct st as [tg hb1].
    rewrite registerCustomHelpers_skip; [reflexivity|exact Hall]. }
  split; [exists names; auto|]. split; [exact Hskip|]. split.
  { intros hs Hd. apply Hskip. intros n Hn. rewrite Hrs.
    apply elem_of_list_to_set, elem_of_app. left. apply Hd. exact Hn. }
  split; [reflexivity|].
  intros opts' hb' st'.
  destruct (new_TemplateGenerator_spec opts' hb') as (Hl' & Hs & _).
  split; [exact Hl'|].
  subst st'. destruct (new_TemplateGenerator opts' hb') as [tg hb0] eqn:E. cbn [fst] in Hs.
  unfold after. rewrite registerCustomHelpers_cons.
  destruct (decide _) as [Hin|_].
  - exfalso. apply Hname. rewrite Hs in Hin. apply elem_of_list_to_set in Hin. exact Hin.
  - cbn. split; [reflexivity|]. apply lookup_insert_eq.
Qed.

(** Witness for C2: the instance registers [foo] and [bar]
    (twice); after the defaults, each name is registered once. *)
Lemma helper_registration_per_instance_witness :
  ("foo" ∉ map fst defaultHelpers) /\
  (exists names,
     registrations (snd (after (register_sequence [[("foo", JFunction "f")]; [("foo", JFunction "f"); ("bar", JFunction "b")]])
                              (new_TemplateGenerator GenerationOptions.empty Handlebars_empty)))
       = (registrations Handlebars_empty ++ map fst defaultHelpers ++ names)%list /\
     NoDup (map fst defaultHelpers ++ names) /\
     registeredHelpers (fst (after (register_sequence [[("foo", JFunction "f")]; [("foo", JFunction "f"); ("bar", JFunction "b")]])
                              (new_TemplateGenerator GenerationOptions.empty Handlebars_empty)))
       = list_to_set (map fst defaultHelpers ++ names)).
Proof.
  assert (H : "foo" ∉ map fst defaultHelpers) by (apply (bool_decide_unpack _); vm_compute; reflexivity).
  split; [exact H|].
  exact (proj1 (helper_registration_per_instance GenerationOptions.empty Handlebars_empty
                  [[("foo", JFunction "f")]; [("foo", JFunction "f"); ("bar", JFunction "b")]]
                  "foo" (JFunction "f") H)).
Defined.

(** C2 (counterexample): two [TemplateGenerator] instances in one
    process each register a helper named [foo].  [Handlebars.registerHelper]
    is called for [foo] twice, and the second instance's helper replaces
    the first one in the global table. *)
Lemma two_instances_register_same_helper :
  let st1 := after (registerCustomHelpers [("foo", JFunction "first")])
               (new_TemplateGenerator GenerationOptions.empty Handlebars_empty) in
  let st2 := after (registerCustomHelpers [("foo", JFunction "second")])
               (new_TemplateGenerator GenerationOptions.empty (snd st1)) in
  count_occ String.string_dec (registrations (snd st2)) "foo" = 2%nat /\
  helpers (snd st2) !! "foo" = Some (JFunction "second").
Proof. vm_compute. split; reflexivity. Qed.




(** C7: when the [try] block of [generatePrompt] throws (in
    [compileTemplate], [prepareContext] or [renderTemplate]), the result
    has [output = ""], [success = false], the thrown error's message as
    [error], an empty [context], and metadata with the template's name,
    the parameter names and the elapsed time between the two clock
    readings. *)
Theorem failed_generation_result (run : Runtime) (tc : TemplateConfig.t)
    (parameters : list (string * jsval)) (opts : GenerationOptions.t)
    (startTime endTime : Z) (st : State) (e : jserror)
    (Hfail : fst (generate_body run tc parameters (GenerationOptions.merge (options (fst st)) opts) st)
             = inl e) :
  let r := fst (generatePrompt run tc parameters opts startTime endTime st) in
  output r = "" /\ success r = false /\ error r = Some (error_message e) /\ context r = [] /\
  templateName (metadata r) = TemplateConfig.name tc /\
  parametersUsed (metadata r) = map fst parameters /\
  generationTime (metadata r) = (endTime - startTime)%Z.
Proof.
  unfold generatePrompt.
  destruct (generate_body run tc parameters (GenerationOptions.merge (options (fst st)) opts) st)
    as [[e'|[out ctx]] st'] eqn:E; cbn in Hfail; [|discriminate].
  injection Hfail as ->. cbn. repeat split.
Qed.

(** Witness for C7: a template whose source is empty fails in
    [compileTemplate]. *)
Lemma failed_generation_result_witness :
  let st := new_TemplateGenerator GenerationOptions.empty Handlebars_empty in
  let run : Runtime := fun _ c _ => inr (JStr (c_source c)) in
  let e := TemplateGenerationError
             "Invalid template content in 't': template must be a non-empty string" (Some "t") in
  fst (generate_body run (TemplateConfig.mk "t" "" "" []) [("x", JStr "1")]
         (GenerationOptions.merge (options (fst st)) GenerationOptions.empty) st) = inl e /\
  let r := fst (generatePrompt run (TemplateConfig.mk "t" "" "" []) [("x", JStr "1")]
                  GenerationOptions.empty 10 25 st) in
  output r = "" /\ success r = false /\ error r = Some (error_message e) /\ context r = [] /\
  templateName (metadata r) = "t" /\
  parametersUsed (metadata r) = ["x"] /\
  generationTime (metadata r) = 15%Z.
Proof.
  intros st run e.
  assert (H : fst (generate_body run (TemplateConfig.mk "t" "" "" []) [("x", JStr "1")]
                     (GenerationOptions.merge (options (fst st)) GenerationOptions.empty) st) = inl e)
    by (vm_compute; reflexivity).
  split; [exact H|].
  exact (failed_generation_result run (TemplateConfig.mk "t" "" "" []) [("x", JStr "1")]
           GenerationOptions.empty 10 25 st e H).
Defined.

End GenerationProofs.

Module RegistryProofs.
Import Discovery TemplateRegistry.

(** The scan numbers of a registry reached from [new TemplateRegistry()]:
    the cached result and the scan in flight were started before the
    current count, and the scan in flight after the cached result. *)
Lemma reachable_scans (fs : FileSystem) (st : TemplateRegistry.t) :
  RegistryQueries.reachable fs st ->
  (forall r, lastDiscovery st = Some r -> (result_id r < scans st)%nat) /\
  (forall p, discoveryPromise st = Some p ->
     (p < scans st)%nat /\ forall r, lastDiscovery st = Some r -> (result_id r < p)%nat).
Proof.
  induction 1 as [|force st _ IH|st _ IH|p st Hp _ IH].
  - split; intros; discriminate.
  - destruct IH as [IH1 IH2]. unfold discover.
    destruct force, (lastDiscovery st) as [r0|] eqn:El, (discoveryPromise st) as [p0|] eqn:Ep; cbn;
      rewrite ?El, ?Ep;
      first [split; assumption
            |split; [intros r Hr; specialize (IH1 r Hr); lia
                    |intros p Hp; injection Hp as <-; split; [lia|exact IH1]]].
  - destruct IH as [_ IH2]. revert IH2. unfold refresh, discover. cbn.
    destruct (discoveryPromise st) as [p0|]; cbn; intros IH2.
    + split; [intros; discriminate|]. intros p Hp. split; [exact (proj1 (IH2 p Hp))|intros; discriminate].
    + split; [intros; discriminate|]. intros p Hp. injection Hp as <-. split; [lia|intros; discriminate].
  - destruct IH as [_ IH2]. cbn. split; [|intros; discriminate].
    intros r Hr. injection Hr as <-. cbn. exact (proj1 (IH2 p Hp)).
Qed.

(** C8: on a registry where a discovery has completed (a state reached
    from [new TemplateRegistry()] that holds a cached result),
    [discover(false)] returns that same cached object and starts no scan.
    [discover(true)] does not return the cache: it resolves to the result
    of a scan started after the cached result was produced, the scan it
    starts itself or, when a discovery is already in flight, that one.
    When that scan resolves, its result becomes [lastDiscovery] and its
    map becomes the registry's templates. *)
Theorem discover_cached_or_fresh (fs : FileSystem) (st : TemplateRegistry.t) (r : DiscoveryResult)
    (Hr : RegistryQueries.reachable fs st) (Hlast : lastDiscovery st = Some r) :
  discover false st = (Cached r, st) /\
  exists p,
    (discover true st = (Started p, mk (TemplateRegistry.templates st) (lastDiscovery st) (Some p) (S p)) \/
     discover true st = (Joined p, st)) /\
    discoveryPromise (snd (discover true st)) = Some p /\
    (result_id r < p)%nat /\
    call_value fs (fst (discover true st)) = performDiscovery fs p /\
    call_value fs (fst (discover true st)) <> r /\
    (forall st0,
       fst (discover_resume fs p st0) = performDiscovery fs p /\
       lastDiscovery (snd (discover_resume fs p st0)) = Some (performDiscovery fs p) /\
       TemplateRegistry.templates (snd (discover_resume fs p st0)) = Discovery.templates (performDiscovery fs p)).
Proof.
  destruct (reachable_scans fs st Hr) as [H1 H2].
  split; [unfold discover; rewrite Hlast; reflexivity|].
  assert (Hres : forall p, forall st0,
       fst (discover_resume fs p st0) = performDiscovery fs p /\
       lastDiscovery (snd (discover_resume fs p st0)) = Some (performDiscovery fs p) /\
       TemplateRegistry.templates (snd (discover_resume fs p st0)) = Discovery.templates (performDiscovery fs p))
    by (intros p st0; cbn; repeat split).
  unfold discover. destruct (discoveryPromise st) as [p|] eqn:Ep.
  - exists p. destruct (H2 p eq_refl) as [_ Hlt]. specialize (Hlt r Hlast).
    split; [right; reflexivity|]. split; [exact Ep|]. split; [exact Hlt|].
    split; [reflexivity|]. split; [|exact (Hres p)].
    cbn. intros Heq. rewrite <- Heq in Hlt. cbn in Hlt. lia.
  - exists (scans st). specialize (H1 r Hlast).
    split; [left; reflexivity|]. split; [reflexivity|]. split; [exact H1|].
    split; [reflexivity|]. split; [|exact (Hres (scans st))].
    cbn. intros Heq. rewrite <- Heq in H1. cbn in H1. lia.
Qed.

(** Witness for C8: after a first discovery completes, [discover(false)]
    returns its result. *)
Lemma discover_cached_or_fresh_witness :
  RegistryQueries.reachable (fun _ => (∅, []))
    (snd (discover_resume (fun _ => (∅, [])) 0 (snd (discover false TemplateRegistry.empty)))) /\
  lastDiscovery (snd (discover_resume (fun _ => (∅, [])) 0 (snd (discover false TemplateRegistry.empty))))
    = Some (performDiscovery (fun _ => (∅, [])) 0) /\
  discover false (snd (discover_resume (fun _ => (∅, [])) 0 (snd (discover false TemplateRegistry.empty))))
    = (Cached (performDiscovery (fun _ => (∅, [])) 0),
       snd (discover_resume (fun _ => (∅, [])) 0 (snd (discover false TemplateRegistry.empty)))).
Proof.
  assert (Hr : RegistryQueries.reachable (fun _ => (∅, []))
    (snd (discover_resume (fun _ => (∅, [])) 0 (snd (discover false TemplateRegistry.empty))))).
  { apply RegistryQueries.reach_resume; [reflexivity|].
    apply RegistryQueries.reach_discover. apply RegistryQueries.reach_new. }
  assert (Hl : lastDiscovery (snd (discover_resume (fun _ => (∅, [])) 0 (snd (discover false TemplateRegistry.empty))))
    = Some (performDiscovery (fun _ => (∅, [])) 0)) by reflexivity.
  split; [exact Hr|]. split; [exact Hl|].
  exact (proj1 (discover_cached_or_fresh _ _ _ Hr Hl)).
Defined.

End RegistryProofs.

Module CleanupProofs.
Import CleanupSpec.

Fixpoint take_while (p : ascii -> bool) (l : list ascii) : list ascii :=
  match l with
  | [] => []
  | c :: t => if p c then c :: take_while p t else []
  end.

Fixpoint drop_while (p : ascii -> bool) (l : list ascii) : list ascii :=
  match l with
  | [] => []
  | c :: t => if p c then drop_while p t else l
  end.

(** Greedy backtracking over a run of [r] extra characters after [a]:
    the continuation is tried at [a + r], then [a + r - 1], ..., [a]. *)
Fixpoint bt (k : nat -> option nat) (a r : nat) : option nat :=
  match r with
  | O => k a
  | S r' => match bt k (S a) r' with Some e => Some e | None => k a end
  end.

Lemma drop_cases (l : list ascii) a :
  match drop a l with
  | [] => nth_error l a = None
  | c :: t => nth_error l a = Some c /\ drop (S a) l = t
  end.
Proof.
  revert a. induction l as [|x l IH]; intros [|a]; cbn; auto.
  apply (IH a).
Qed.

Lemma drop_cons_nth (l : list ascii) a c t :
  drop a l = c :: t -> nth_error l a = Some c /\ drop (S a) l = t.
Proof. intros E. pose proof (drop_cases l a) as H. rewrite E in H. exact H. Qed.

Lemma drop_nil_nth (l : list ascii) a : drop a l = [] -> nth_error l a = None.
Proof. intros E. pose proof (drop_cases l a) as H. rewrite E in H. exact H. Qed.

Lemma take_drop_while p l : (take_while p l ++ drop_while p l)%list = l.
Proof. induction l as [|c t IH]; cbn; [reflexivity|]. destruct (p c); cbn; congruence. Qed.

Lemma length_drop_while p l : length (drop_while p l) <= length l.
Proof. induction l as [|c t IH]; cbn; [lia|]. destruct (p c); cbn; lia. Qed.

Lemma drop_ws_drop_while l : drop_ws l = drop_while is_ws l.
Proof. induction l as [|c t IH]; cbn; [reflexivity|]. destruct (is_ws c); auto. Qed.

Lemma is_lf_ws c : is_lf c = true -> is_ws c = true.
Proof. unfold is_lf, is_ws. intros H. apply Nat.eqb_eq in H. rewrite H. reflexivity. Qed.

Lemma is_space_tab_ws c : is_space_tab c = true -> is_ws c = true.
Proof.
  unfold is_space_tab, is_ws. intros H. apply orb_true_iff in H as [H|H];
    apply Nat.eqb_eq in H; rewrite H; reflexivity.
Qed.

Section Matcher.
Variable input : list ascii.

Lemma m_class p a k :
  m input (RClass p) a k =
  match drop a input with
  | c :: _ => if p c then k (S a) else None
  | [] => None
  end.
Proof.
  cbn. pose proof (drop_cases input a) as H.
  destruct (drop a input) as [|c t]; [rewrite H; reflexivity|].
  destruct H as [-> _]. reflexivity.
Qed.

Lemma star_class p : forall l fuel a k,
  drop a input = l -> length l < fuel ->
  star_loop (m input (RClass p)) fuel a k = bt k a (length (take_while p l)).
Proof.
  induction l as [|c t IH]; intros fuel a k E Hf; (destruct fuel as [|f]; [cbn in Hf; lia|]).
  - cbn [star_loop]. rewrite m_class, E. reflexivity.
  - cbn [star_loop]. rewrite m_class, E. cbn [take_while].
    destruct (drop_cons_nth _ _ _ _ E) as [_ E'].
    destruct (p c).
    + cbv beta. assert (Hs : Nat.eqb (S a) a = false) by (apply Nat.eqb_neq; lia).
      rewrite Hs, (IH f (S a) k E') by (cbn in Hf; lia). reflexivity.
    + reflexivity.
Qed.

Lemma star_class_m p a k :
  star_loop (m input (RClass p)) (S (length input)) a k
  = bt k a (length (take_while p (drop a input))).
Proof.
  apply star_class; [reflexivity|]. rewrite length_drop. lia.
Qed.

(** The continuation that accepts any end. *)
Lemma bt_accept p : forall l a,
  drop a input = l ->
  exists j, bt (fun j => Some j) a (length (take_while p l)) = Some j /\ drop j input = drop_while p l.
Proof.
  induction l as [|c t IH]; intros a E.
  - exists a. split; [reflexivity|exact E].
  - cbn [take_while drop_while]. destruct (p c) eqn:Hp.
    + destruct (drop_cons_nth _ _ _ _ E) as [_ E'].
      destruct (IH (S a) E') as (j & Hj & Dj). exists j. cbn. rewrite Hj. auto.
    + exists a. auto.
Qed.

(** The continuation of [$]. *)
Definition k_eol (j : nat) : option nat := if Nat.eqb j (length input) then Some j else None.

Lemma bt_eol : forall l a,
  drop a input = l -> a <= length input ->
  bt k_eol a (length (take_while is_ws l)) =
  match drop_while is_ws l with [] => Some (length input) | _ => None end.
Proof.
  induction l as [|c t IH]; intros a E Ha.
  - cbn. unfold k_eol. pose proof (length_drop input a) as L. rewrite E in L. cbn in L.
    rewrite (proj2 (Nat.eqb_eq a (length input))) by lia. f_equal. lia.
  - pose proof (length_drop input a) as L. rewrite E in L. cbn in L.
    cbn [take_while drop_while]. destruct (is_ws c) eqn:Hw.
    + destruct (drop_cons_nth _ _ _ _ E) as [_ E'].
      cbn [length bt]. rewrite (IH (S a) E') by lia.
      destruct (drop_while is_ws t); [reflexivity|].
      unfold k_eol. rewrite (proj2 (Nat.eqb_neq a (length input))) by lia. reflexivity.
    + cbn. unfold k_eol. rewrite (proj2 (Nat.eqb_neq a (length input))) by lia. reflexivity.
Qed.

End Matcher.
Lemma count_lf_existsb g : existsb is_lf g = Nat.ltb 0 (count_lf g).
Proof.
  induction g as [|c t IH]; [reflexivity|]. cbn. rewrite IH.
  destruct (is_lf c); cbn; [|reflexivity]. destruct (count_lf t); reflexivity.
Qed.

Lemma not_ws_not_lf c : is_ws c = false -> is_lf c = false.
Proof. intros H. destruct (is_lf c) eqn:E; [|reflexivity]. rewrite (is_lf_ws c E) in H. discriminate. Qed.

Lemma not_ws_not_space_tab c : is_ws c = false -> is_space_tab c = false.
Proof.
  intros H. destruct (is_space_tab c) eqn:E; [|reflexivity].
  rewrite (is_space_tab_ws c E) in H. discriminate.
Qed.

Section Passes.
Variable input : list ascii.

(** The continuations of the matcher for [/\n\s*\n\s*\n/]: [k2] reads
    the third newline, [k1] the second one and what follows. *)
Definition k2 (j : nat) : option nat := m input (RClass is_lf) j (fun j => Some j).
Definition k1 (j : nat) : option nat :=
  m input (RClass is_lf) j (fun j' => star_loop (m input (RClass is_ws)) (S (length input)) j' k2).

Lemma bt_k2 : forall l a, drop a input = l ->
  if existsb is_lf (take_while is_ws l)
  then exists j, bt k2 a (length (take_while is_ws l)) = Some j /\
                 drop j input = (after_last_lf (take_while is_ws l) ++ drop_while is_ws l)%list
  else bt k2 a (length (take_while is_ws l)) = None.
Proof.
  induction l as [|c t IH]; intros a E.
  - cbn [take_while existsb length bt]. unfold k2. rewrite m_class, E. reflexivity.
  - cbn [take_while drop_while]. destruct (is_ws c) eqn:Hw.
    + destruct (drop_cons_nth _ _ _ _ E) as [_ E'].
      specialize (IH (S a) E'). cbn [existsb length bt after_last_lf].
      destruct (existsb is_lf (take_while is_ws t)) eqn:Hx; cbv iota in IH.
      * destruct IH as (j & Hj & Dj). rewrite orb_true_r. exists j. rewrite Hj. auto.
      * rewrite IH, orb_false_r. unfold k2. rewrite m_class, E.
        destruct (is_lf c); [|reflexivity].
        exists (S a). split; [reflexivity|]. rewrite E'. symmetry. apply take_drop_while.
    + cbn [existsb length bt]. unfold k2. rewrite m_class, E, (not_ws_not_lf c Hw). reflexivity.
Qed.

Lemma bt_k1 : forall l a, drop a input = l ->
  if Nat.leb 2 (count_lf (take_while is_ws l))
  then exists j, bt k1 a (length (take_while is_ws l)) = Some j /\
                 drop j input = (after_last_lf (take_while is_ws l) ++ drop_while is_ws l)%list
  else bt k1 a (length (take_while is_ws l)) = None.
Proof.
  induction l as [|c t IH]; intros a E.
  - cbn [take_while count_lf length bt Nat.leb]. unfold k1. rewrite m_class, E. reflexivity.
  - cbn [take_while drop_while]. destruct (is_ws c) eqn:Hw.
    + destruct (drop_cons_nth _ _ _ _ E) as [_ E'].
      specialize (IH (S a) E'). cbn [count_lf length bt after_last_lf].
      rewrite count_lf_existsb.
      destruct (Nat.leb 2 (count_lf (take_while is_ws t))) eqn:Hc; cbv iota in IH.
      * apply Nat.leb_le in Hc.
        destruct IH as (j & Hj & Dj).
        rewrite (proj2 (Nat.ltb_lt 0 _)) by lia.
        destruct (is_lf c); rewrite (proj2 (Nat.leb_le 2 _)) by lia; exists j; rewrite Hj; auto.
      * apply Nat.leb_gt in Hc. rewrite IH.
        unfold k1. rewrite m_class, E. cbv beta.
        rewrite star_class_m, E'.
        pose proof (bt_k2 t (S a) E') as H2. rewrite count_lf_existsb in H2.
        destruct (is_lf c) eqn:Hl.
        -- destruct (Nat.ltb 0 (count_lf (take_while is_ws t))) eqn:Hp.
           ++ apply Nat.ltb_lt in Hp. rewrite (proj2 (Nat.leb_le 2 _)) by (cbn; lia). exact H2.
           ++ apply Nat.ltb_ge in Hp. rewrite (proj2 (Nat.leb_gt 2 _)) by (cbn; lia). exact H2.
        -- rewrite (proj2 (Nat.leb_gt 2 _)) by (cbn; lia). reflexivity.
    + cbn [count_lf length bt Nat.leb]. unfold k1. rewrite m_class, E, (not_ws_not_lf c Hw). reflexivity.
Qed.

Lemma exec_blank i :
  match drop i input with
  | [] => exec input blank_lines_re i = None
  | c :: t =>
      if is_lf c && Nat.leb 2 (count_lf (take_while is_ws t))
      then exists j, exec input blank_lines_re i = Some j /\
                     drop j input = (after_last_lf (take_while is_ws t) ++ drop_while is_ws t)%list
      else exec input blank_lines_re i = None
  end.
Proof.
  assert (U : exec input blank_lines_re i =
              m input (RClass is_lf) i (fun j => star_loop (m input (RClass is_ws)) (S (length input)) j k1))
    by reflexivity.
  rewrite U, m_class. destruct (drop i input) as [|c t] eqn:E; [reflexivity|].
  destruct (drop_cons_nth _ _ _ _ E) as [_ E'].
  destruct (is_lf c); cbn [andb]; [|reflexivity].
  rewrite star_class_m, E'. exact (bt_k1 t (S i) E').
Qed.

Lemma exec_spaces i :
  match drop i input with
  | [] => exec input spaces_re i = None
  | c :: t =>
      if is_space_tab c
      then exists j, exec input spaces_re i = Some j /\ drop j input = drop_while is_space_tab t
      else exec input spaces_re i = None
  end.
Proof.
  assert (U : exec input spaces_re i =
              m input (RClass is_space_tab) i
                (fun j => star_loop (m input (RClass is_space_tab)) (S (length input)) j (fun j => Some j)))
    by reflexivity.
  rewrite U, m_class. destruct (drop i input) as [|c t] eqn:E; [reflexivity|].
  destruct (drop_cons_nth _ _ _ _ E) as [_ E'].
  destruct (is_space_tab c); [|reflexivity].
  rewrite star_class_m, E'. exact (bt_accept input is_space_tab t (S i) E').
Qed.

Lemma exec_trim i :
  match drop i input with
  | [] => exec input trim_re i = None
  | c :: t =>
      if is_ws c then
        if Nat.eqb i 0 then exists j, exec input trim_re i = Some j /\ drop j input = drop_while is_ws t
        else exec input trim_re i = match drop_while is_ws t with [] => Some (length input) | _ => None end
      else exec input trim_re i = None
  end.
Proof.
  assert (U : exec input trim_re i =
              match (if Nat.eqb i 0 then
                       m input (RClass is_ws) i
                         (fun j => star_loop (m input (RClass is_ws)) (S (length input)) j (fun j => Some j))
                     else None) with
              | Some e => Some e
              | None => m input (RClass is_ws) i
                          (fun j => star_loop (m input (RClass is_ws)) (S (length input)) j (k_eol input))
              end)
    by reflexivity.
  rewrite U, !m_class. destruct (drop i input) as [|c t] eqn:E.
  - destruct (Nat.eqb i 0); reflexivity.
  - destruct (drop_cons_nth _ _ _ _ E) as [_ E'].
    pose proof (length_drop input i) as L. rewrite E in L. cbn in L.
    destruct (is_ws c); [|destruct (Nat.eqb i 0); reflexivity].
    rewrite !star_class_m, E'.
    destruct (Nat.eqb i 0).
    + destruct (bt_accept input is_ws t (S i) E') as (j & Hj & Dj). exists j. rewrite Hj. auto.
    + apply bt_eol; [exact E'|lia].
Qed.

(** The scan of [replace_from], given what the output from each
    position should be. *)
Lemma replace_from_spec r rep (G : nat -> list ascii) :
  (forall i, match exec input r i with
             | Some j => length (drop j input) < length (drop i input) /\ G i = (rep ++ G j)%list
             | None => match drop i input with [] => G i = [] | c :: _ => G i = c :: G (S i) end
             end) ->
  forall fuel i, length (drop i input) < fuel -> replace_from input r rep fuel i = G i.
Proof.
  intros H. induction fuel as [|f IH]; intros i Hf; [lia|].
  cbn [replace_from]. specialize (H i). destruct (exec input r i) as [j|].
  - destruct H as [Hlt ->].
    assert (Hji : Nat.eqb j i = false) by (apply Nat.eqb_neq; intros ->; lia).
    rewrite Hji, (IH j) by lia. reflexivity.
  - pose proof (drop_cases input i) as D. destruct (drop i input) as [|c t] eqn:E.
    + rewrite D. symmetry. exact H.
    + destruct D as [-> E']. rewrite H, (IH (S i)) by (rewrite E'; cbn in Hf; lia). reflexivity.
Qed.

End Passes.

(** ** List facts for the three passes *)

Lemma drop_while_head p l :
  match drop_while p l with [] => True | c :: _ => p c = false end.
Proof. induction l as [|c t IH]; cbn; [exact I|]. destruct (p c) eqn:E; [exact IH|exact E]. Qed.

Lemma while_app_stop p A D :
  forallb p A = true -> match D with [] => True | c :: _ => p c = false end ->
  take_while p (A ++ D) = A /\ drop_while p (A ++ D) = D.
Proof.
  intros HA HD. induction A as [|a A IH]; cbn.
  - destruct D as [|c D]; [auto|]. cbn. rewrite HD. auto.
  - cbn in HA. apply andb_true_iff in HA as [Ha HA]. rewrite Ha.
    destruct (IH HA) as [-> ->]. auto.
Qed.

Lemma forallb_take_while p l : forallb p (take_while p l) = true.
Proof. induction l as [|c t IH]; cbn; [reflexivity|]. destruct (p c) eqn:E; cbn; [rewrite E; exact IH|reflexivity]. Qed.

Lemma after_last_lf_forallb p g : forallb p g = true -> forallb p (after_last_lf g) = true.
Proof.
  induction g as [|c t IH]; cbn; [auto|]. intros H. apply andb_true_iff in H as [Hc Ht].
  destruct (existsb is_lf t); [auto|]. destruct (is_lf c); cbn; [exact Ht|]. rewrite Hc. exact Ht.
Qed.

Lemma count_lf_after_last_lf g : count_lf (after_last_lf g) = 0.
Proof.
  induction g as [|c t IH]; cbn; [reflexivity|].
  destruct (existsb is_lf t) eqn:E; [exact IH|].
  assert (H0 : count_lf t = 0).
  { rewrite count_lf_existsb in E. apply Nat.ltb_ge in E. lia. }
  destruct (is_lf c) eqn:Hc; cbn; [exact H0|]. rewrite Hc. exact H0.
Qed.

Lemma length_after_last_lf g : length (after_last_lf g) <= length g.
Proof.
  induction g as [|c t IH]; cbn; [lia|].
  destruct (existsb is_lf t); [lia|]. destruct (is_lf c); cbn; lia.
Qed.

Lemma collapse_gap_no_lf g : count_lf g = 0 -> collapse_gap g = g.
Proof. intros H. unfold collapse_gap. rewrite H. reflexivity. Qed.

Definition tail_part (l : list ascii) : list ascii :=
  match l with [] => [] | c :: t => c :: collapse_newlines t end.

Lemma collapse_newlines_acc_spec l : forall gap,
  collapse_newlines_acc gap l =
  (collapse_gap (rev gap ++ take_while is_ws l) ++ tail_part (drop_while is_ws l))%list.
Proof.
  induction l as [|c t IH]; intros gap; cbn [collapse_newlines_acc take_while drop_while].
  - rewrite !app_nil_r. reflexivity.
  - destruct (is_ws c).
    + rewrite IH. cbn [rev]. rewrite <- app_assoc. reflexivity.
    + rewrite app_nil_r. reflexivity.
Qed.

Lemma collapse_newlines_spec l :
  collapse_newlines l = (collapse_gap (take_while is_ws l) ++ tail_part (drop_while is_ws l))%list.
Proof. apply collapse_newlines_acc_spec. Qed.

Lemma collapse_newlines_cons c t :
  is_lf c && Nat.leb 2 (count_lf (take_while is_ws t)) = false ->
  collapse_newlines (c :: t) = c :: collapse_newlines t.
Proof.
  intros H. rewrite !collapse_newlines_spec. cbn [take_while drop_while].
  destruct (is_ws c) eqn:Hw; [|cbn; rewrite collapse_newlines_spec; reflexivity].
  set (g := take_while is_ws t) in *.
  unfold collapse_gap. cbn [count_lf before_first_lf after_last_lf].
  destruct (is_lf c) eqn:Hl; cbn [andb] in H.
  - apply Nat.leb_gt in H.
    rewrite (proj2 (Nat.leb_gt 3 (1 + count_lf g))) by lia.
    rewrite (proj2 (Nat.leb_gt 3 (count_lf g))) by lia. reflexivity.
  - cbn [Nat.add]. destruct (Nat.leb 3 (count_lf g)) eqn:Hc; [|reflexivity].
    apply Nat.leb_le in Hc.
    rewrite count_lf_existsb, (proj2 (Nat.ltb_lt 0 _)) by lia. reflexivity.
Qed.

Lemma collapse_newlines_run c t :
  is_lf c && Nat.leb 2 (count_lf (take_while is_ws t)) = true ->
  collapse_newlines (c :: t) =
  (LF :: LF :: collapse_newlines (after_last_lf (take_while is_ws t) ++ drop_while is_ws t))%list.
Proof.
  intros H. apply andb_true_iff in H as [Hl Hc]. apply Nat.leb_le in Hc.
  rewrite !collapse_newlines_spec. cbn [take_while drop_while]. rewrite (is_lf_ws c Hl).
  set (g := take_while is_ws t) in *.
  destruct (while_app_stop is_ws (after_last_lf g) (drop_while is_ws t)) as [-> ->].
  - apply after_last_lf_forallb, forallb_take_while.
  - apply drop_while_head.
  - rewrite (collapse_gap_no_lf _ (count_lf_after_last_lf g)).
    unfold collapse_gap. cbn [count_lf before_first_lf after_last_lf]. rewrite Hl.
    rewrite (proj2 (Nat.leb_le 3 (1 + count_lf g))) by lia.
    rewrite (count_lf_existsb g), (proj2 (Nat.ltb_lt 0 (count_lf g))) by lia. reflexivity.
Qed.

Definition rtrim (l : list ascii) : list ascii := rev (drop_ws (rev l)).

Lemma drop_ws_app x y : drop_ws (x ++ y) = match drop_ws x with [] => drop_ws y | z => (z ++ y)%list end.
Proof. induction x as [|c t IH]; cbn; [reflexivity|]. destruct (is_ws c); [exact IH|reflexivity]. Qed.

Lemma drop_ws_nil l : drop_ws l = [] <-> forallb is_ws l = true.
Proof.
  induction l as [|c t IH]; cbn; [tauto|]. destruct (is_ws c); cbn; [exact IH|].
  split; discriminate.
Qed.

Lemma forallb_rev (p : ascii -> bool) (l : list ascii) : forallb p (rev l) = forallb p l.
Proof.
  induction l as [|c t IH]; cbn; [reflexivity|].
  rewrite forallb_app, IH. cbn. rewrite andb_true_r, andb_comm. reflexivity.
Qed.

Lemma rtrim_cons c l : rtrim (c :: l) = if is_ws c && forallb is_ws l then [] else c :: rtrim l.
Proof.
  unfold rtrim. cbn [rev]. rewrite drop_ws_app.
  destruct (drop_ws (rev l)) as [|z zs] eqn:E.
  - apply drop_ws_nil in E. rewrite forallb_rev in E. rewrite E, andb_true_r.
    cbn. destruct (is_ws c); reflexivity.
  - assert (Hf : forallb is_ws l = false).
    { destruct (forallb is_ws l) eqn:F; [|reflexivity].
      rewrite <- forallb_rev in F. apply drop_ws_nil in F. congruence. }
    rewrite Hf, andb_false_r. rewrite rev_app_distr. reflexivity.
Qed.

Lemma drop_while_nil_forallb p l : drop_while p l = [] <-> forallb p l = true.
Proof.
  induction l as [|c t IH]; cbn; [tauto|]. destruct (p c); cbn; [exact IH|]. split; discriminate.
Qed.

Lemma collapse_spaces_skip t :
  collapse_spaces_from true t = collapse_spaces_from false (drop_while is_space_tab t).
Proof.
  induction t as [|c t IH]; cbn; [reflexivity|].
  destruct (is_space_tab c) eqn:E; [exact IH|]. cbn. rewrite E. reflexivity.
Qed.

(** ** The three passes of [cleanupOutput] *)

Section PassSpecs.
Variable input : list ascii.

Lemma replace_all_eq r rep (F : list ascii -> list ascii) :
  (forall i, match exec input r i with
             | Some j => length (drop j input) < length (drop i input) /\
                         F (drop i input) = (rep ++ F (drop j input))%list
             | None => match drop i input with [] => F [] = [] | c :: t => F (c :: t) = c :: F t end
             end) ->
  replace_all input r rep = F input.
Proof.
  intros H. unfold replace_all.
  rewrite (replace_from_spec input r rep (fun i => F (drop i input))).
  - reflexivity.
  - intros i. specialize (H i). destruct (exec input r i) as [j|]; [exact H|].
    pose proof (drop_cases input i) as D. destruct (drop i input) as [|c t]; [exact H|].
    destruct D as [_ ->]. exact H.
  - rewrite length_drop. lia.
Qed.

Lemma blank_lines_pass : replace_all input blank_lines_re [LF; LF] = collapse_newlines input.
Proof.
  apply replace_all_eq. intros i. pose proof (exec_blank input i) as X.
  destruct (drop i input) as [|c t] eqn:E.
  - rewrite X. reflexivity.
  - destruct (is_lf c && Nat.leb 2 (count_lf (take_while is_ws t))) eqn:H.
    + destruct X as (j & -> & Dj). rewrite Dj. split.
      * rewrite length_app. cbn.
        pose proof (length_after_last_lf (take_while is_ws t)).
        pose proof (f_equal (@length ascii) (take_drop_while is_ws t)) as L.
        rewrite length_app in L. lia.
      * apply collapse_newlines_run. exact H.
    + rewrite X. apply collapse_newlines_cons. exact H.
Qed.

Lemma trim_pass : replace_all input trim_re [] = trim_ws input.
Proof.
  unfold replace_all.
  rewrite (replace_from_spec input trim_re []
             (fun i => if Nat.eqb i 0 then trim_ws input else rtrim (drop i input))).
  - reflexivity.
  - intros i. pose proof (exec_trim input i) as X.
    pose proof (length_drop input i) as L.
    pose proof (drop_cases input i) as D.
    destruct (drop i input) as [|c t] eqn:E.
    + rewrite X. destruct (Nat.eqb i 0) eqn:Hi; [|reflexivity].
      apply Nat.eqb_eq in Hi. subst i. change (drop 0 input) with input in E. rewrite E. reflexivity.
    + destruct D as [_ E']. cbn in L.
      destruct (is_ws c) eqn:Hw.
      * destruct (Nat.eqb i 0) eqn:Hi.
        -- apply Nat.eqb_eq in Hi. subst i. change (drop 0 input) with input in E.
           destruct X as (j & -> & Dj).
           assert (Hlt : length (drop j input) < length (c :: t)).
           { rewrite Dj. pose proof (length_drop_while is_ws t). cbn. lia. }
           split; [exact Hlt|].
           assert (Hj : Nat.eqb j 0 = false).
           { apply Nat.eqb_neq. intros ->. change (drop 0 input) with input in Hlt. rewrite E in Hlt. lia. }
           rewrite Hj, Dj. cbn [Nat.eqb app]. unfold trim_ws, rtrim. rewrite E. cbn [drop_ws]. rewrite Hw, !drop_ws_drop_while.
           reflexivity.
        -- rewrite X. destruct (drop_while is_ws t) as [|d ds] eqn:Dw.
           ++ rewrite drop_all. split; [cbn; lia|].
              assert (Hn : Nat.eqb (length input) 0 = false) by (apply Nat.eqb_neq; lia).
              rewrite Hn, rtrim_cons, Hw.
              apply drop_while_nil_forallb in Dw. rewrite Dw. reflexivity.
           ++ cbn [Nat.eqb]. rewrite E', rtrim_cons, Hw.
              assert (Hf : forallb is_ws t = false).
              { destruct (forallb is_ws t) eqn:F; [|reflexivity].
                apply drop_while_nil_forallb in F. congruence. }
              rewrite Hf. reflexivity.
      * rewrite X. rewrite E'. cbn [Nat.eqb].
        destruct (Nat.eqb i 0) eqn:Hi.
        -- apply Nat.eqb_eq in Hi. subst i. change (drop 0 input) with input in E.
           rewrite E. unfold trim_ws. cbn [drop_ws]. rewrite Hw. fold (rtrim (c :: t)).
           rewrite rtrim_cons, Hw. reflexivity.
        -- rewrite rtrim_cons, Hw. reflexivity.
  - rewrite length_drop. lia.
Qed.

Lemma spaces_pass : replace_all input spaces_re [SPACE] = collapse_spaces input.
Proof.
  apply replace_all_eq. intros i. pose proof (exec_spaces input i) as X.
  destruct (drop i input) as [|c t] eqn:E.
  - rewrite X. reflexivity.
  - destruct (is_space_tab c) eqn:H.
    + destruct X as (j & -> & Dj). rewrite Dj. split.
      * pose proof (length_drop_while is_space_tab t). cbn. lia.
      * unfold collapse_spaces. cbn. rewrite H. rewrite collapse_spaces_skip. reflexivity.
    + rewrite X. unfold collapse_spaces. cbn. rewrite H. reflexivity.
Qed.

End PassSpecs.


(** ** Properties of the three steps *)

(** Scanner for the newlines of a gap: [n] counts the newlines of the
    current gap so far, and a newline after two is refused. *)
Fixpoint lf_ok (n : nat) (l : list ascii) : bool :=
  match l with
  | [] => true
  | c :: t => if is_lf c then Nat.leb n 1 && lf_ok (S n) t else lf_ok (if is_ws c then n else 0) t
  end.

(** Scanner for runs of spaces and tabs: [prev] tells whether the
    previous character was one. *)
Fixpoint st_ok (prev : bool) (l : list ascii) : bool :=
  match l with
  | [] => true
  | c :: t => if is_space_tab c then negb prev && st_ok true t else st_ok false t
  end.

Definition non_ws (c : ascii) : bool := negb (is_ws c).

Lemma space_tab_not_lf c : is_space_tab c = true -> is_lf c = false.
Proof.
  unfold is_space_tab, is_lf. intros H. apply orb_true_iff in H as [H|H];
    apply Nat.eqb_eq in H; rewrite H; reflexivity.
Qed.

Lemma SPACE_props : is_space_tab SPACE = true /\ is_lf SPACE = false /\ is_ws SPACE = true.
Proof. vm_compute. auto. Qed.

Lemma lf_ok_mono l : forall n m, m <= n -> lf_ok n l = true -> lf_ok m l = true.
Proof.
  induction l as [|c t IH]; intros n m Hle H; cbn in *; [reflexivity|].
  destruct (is_lf c).
  - apply andb_true_iff in H as [H1 H2]. apply Nat.leb_le in H1.
    apply andb_true_iff. split; [apply Nat.leb_le; lia|]. apply (IH (S n)); [lia|exact H2].
  - destruct (is_ws c); [apply (IH n); assumption|exact H].
Qed.

Lemma lf_ok_app_r x : forall y n, n <= 2 -> lf_ok n (x ++ y) = true -> exists m, m <= 2 /\ lf_ok m y = true.
Proof.
  induction x as [|c t IH]; intros y n Hn H; cbn in H; [eauto|].
  destruct (is_lf c).
  - apply andb_true_iff in H as [H1 H2]. apply Nat.leb_le in H1. apply (IH y (S n)); [lia|exact H2].
  - destruct (is_ws c); [apply (IH y n); assumption|apply (IH y 0); [lia|exact H]].
Qed.

Lemma lf_ok_gap g : forall v n, forallb is_ws g = true -> n <= 2 -> lf_ok n (g ++ v) = true ->
  count_lf g + n <= 2.
Proof.
  induction g as [|c t IH]; intros v n Hg Hn H; cbn in *; [lia|].
  apply andb_true_iff in Hg as [Hc Hg]. rewrite Hc in H.
  destruct (is_lf c).
  - apply andb_true_iff in H as [H1 H2]. apply Nat.leb_le in H1.
    specialize (IH v (S n) Hg ltac:(lia) H2). lia.
  - specialize (IH v n Hg Hn H). lia.
Qed.

Lemma lf_ok_gap_then G : forall n r, forallb is_ws G = true -> count_lf G + n <= 2 ->
  match r with [] => True | c :: t => is_ws c = false /\ lf_ok 0 t = true end ->
  lf_ok n (G ++ r) = true.
Proof.
  induction G as [|c t IH]; intros n r HG Hc Hr; cbn in *.
  - destruct r as [|d r]; [reflexivity|]. destruct Hr as [Hd Hr]. cbn.
    rewrite (not_ws_not_lf d Hd), Hd. exact Hr.
  - apply andb_true_iff in HG as [Hw HG]. rewrite Hw.
    destruct (is_lf c).
    + apply andb_true_iff. split; [apply Nat.leb_le; lia|]. apply IH; auto. lia.
    + apply IH; auto.
Qed.

Lemma count_lf_app x y : count_lf (x ++ y) = count_lf x + count_lf y.
Proof. induction x as [|c t IH]; cbn; [reflexivity|]. rewrite IH. lia. Qed.

Lemma count_lf_before_first_lf g : count_lf (before_first_lf g) = 0.
Proof. induction g as [|c t IH]; cbn; [reflexivity|]. destruct (is_lf c) eqn:E; cbn; [reflexivity|]. rewrite E. exact IH. Qed.

Lemma before_first_lf_forallb p g : forallb p g = true -> forallb p (before_first_lf g) = true.
Proof.
  induction g as [|c t IH]; cbn; [auto|]. intros H. apply andb_true_iff in H as [Hc Ht].
  destruct (is_lf c); cbn; [reflexivity|]. rewrite Hc. auto.
Qed.

Lemma collapse_gap_props g : forallb is_ws g = true ->
  forallb is_ws (collapse_gap g) = true /\ count_lf (collapse_gap g) <= 2.
Proof.
  intros Hg. unfold collapse_gap. destruct (Nat.leb 3 (count_lf g)) eqn:E.
  - split.
    + rewrite !forallb_app. rewrite before_first_lf_forallb, after_last_lf_forallb by exact Hg.
      reflexivity.
    + rewrite !count_lf_app, count_lf_before_first_lf, count_lf_after_last_lf.
      change (count_lf [LF; LF]) with 2. lia.
  - apply Nat.leb_gt in E. split; [exact Hg|lia].
Qed.

Lemma lf_ok_collapse_newlines : forall n l, length l <= n -> lf_ok 0 (collapse_newlines l) = true.
Proof.
  induction n as [|n IH]; intros l Hl.
  - destruct l; [reflexivity|cbn in Hl; lia].
  - rewrite collapse_newlines_spec.
    destruct (collapse_gap_props (take_while is_ws l) (forallb_take_while is_ws l)) as [Hw Hc].
    apply lf_ok_gap_then; [exact Hw|lia|].
    pose proof (drop_while_head is_ws l) as Hh.
    pose proof (take_drop_while is_ws l) as Htd.
    destruct (drop_while is_ws l) as [|c t] eqn:D; cbn; [exact I|].
    split; [exact Hh|]. apply IH.
    apply (f_equal (@length ascii)) in Htd. rewrite length_app in Htd. cbn in Htd. lia.
Qed.

Lemma rtrim_prefix l : exists suf, l = (rtrim l ++ suf)%list /\ forallb is_ws suf = true.
Proof.
  exists (rev (take_while is_ws (rev l))). split.
  - unfold rtrim. rewrite drop_ws_drop_while, <- rev_app_distr, take_drop_while, rev_involutive.
    reflexivity.
  - rewrite forallb_rev. apply forallb_take_while.
Qed.

Lemma lf_ok_app_l x : forall y n, lf_ok n (x ++ y) = true -> lf_ok n x = true.
Proof.
  induction x as [|c t IH]; intros y n H; cbn in *; [reflexivity|].
  destruct (is_lf c).
  - apply andb_true_iff in H as [H1 H2]. rewrite H1. eauto.
  - eauto.
Qed.

Lemma lf_ok_trim l : lf_ok 0 l = true -> lf_ok 0 (trim_ws l) = true.
Proof.
  intros H. unfold trim_ws. fold (rtrim (drop_ws l)).
  destruct (rtrim_prefix (drop_ws l)) as (suf & Hs & _).
  apply (lf_ok_app_l _ suf). rewrite <- Hs.
  rewrite <- (take_drop_while is_ws l) in H. rewrite drop_ws_drop_while.
  destruct (lf_ok_app_r _ _ 0 ltac:(lia) H) as (m & _ & Hm).
  apply (lf_ok_mono _ m); [lia|exact Hm].
Qed.

Lemma lf_ok_collapse_spaces l : forall b n, lf_ok n l = true -> lf_ok n (collapse_spaces_from b l) = true.
Proof.
  destruct SPACE_props as (Hs1 & Hs2 & Hs3).
  induction l as [|c t IH]; intros b n H; cbn; [reflexivity|].
  destruct (is_space_tab c) eqn:Hst.
  - cbn in H. rewrite (space_tab_not_lf c Hst), (is_space_tab_ws c Hst) in H.
    destruct b; [auto|]. cbn. rewrite Hs2, Hs3. auto.
  - cbn in *. destruct (is_lf c).
    + apply andb_true_iff in H as [H1 H2]. rewrite H1. apply IH, H2.
    + apply IH, H.
Qed.

Lemma st_ok_collapse_spaces l : forall b, st_ok b (collapse_spaces_from b l) = true.
Proof.
  destruct SPACE_props as (Hs1 & _ & _).
  induction l as [|c t IH]; intros b; cbn; [reflexivity|].
  destruct (is_space_tab c) eqn:Hst.
  - destruct b; [apply IH|]. cbn. rewrite Hs1. apply IH.
  - cbn. rewrite Hst. apply IH.
Qed.

Lemma st_ok_app x : forall y b, st_ok b (x ++ y) = true -> exists b', st_ok b' y = true.
Proof.
  induction x as [|c t IH]; intros y b H; cbn in H; [eauto|].
  destruct (is_space_tab c).
  - apply andb_true_iff in H as [_ H]. eauto.
  - eauto.
Qed.

Lemma collapse_spaces_snoc z : forall b c, is_space_tab c = false ->
  collapse_spaces_from b (z ++ [c]) = (collapse_spaces_from b z ++ [c])%list.
Proof.
  induction z as [|d t IH]; intros b c Hc; cbn.
  - rewrite Hc. reflexivity.
  - destruct (is_space_tab d); [destruct b|]; cbn; rewrite IH by exact Hc; reflexivity.
Qed.

Lemma trim_ends l :
  match trim_ws l with [] => True | c :: _ => is_ws c = false end /\
  match rev (trim_ws l) with [] => True | c :: _ => is_ws c = false end.
Proof.
  split.
  - unfold trim_ws. fold (rtrim (drop_ws l)).
    destruct (rtrim_prefix (drop_ws l)) as (suf & Hs & _).
    pose proof (drop_while_head is_ws l) as Hh. rewrite <- drop_ws_drop_while in Hh.
    destruct (rtrim (drop_ws l)) as [|c r]; [exact I|].
    rewrite Hs in Hh. exact Hh.
  - unfold trim_ws. rewrite rev_involutive, drop_ws_drop_while. apply drop_while_head.
Qed.

Lemma filter_collapse_newlines : forall n l, length l <= n ->
  List.filter non_ws (collapse_newlines l) = List.filter non_ws l.
Proof.
  assert (Hws : forall g, forallb is_ws g = true -> List.filter non_ws g = []).
  { induction g as [|c t IH]; cbn; [auto|]. intros H. apply andb_true_iff in H as [Hc Ht].
    unfold non_ws at 1. rewrite Hc. auto. }
  induction n as [|n IH]; intros l Hl.
  - destruct l; [reflexivity|cbn in Hl; lia].
  - rewrite collapse_newlines_spec, List.filter_app.
    destruct (collapse_gap_props (take_while is_ws l) (forallb_take_while is_ws l)) as [Hw _].
    rewrite (Hws _ Hw).
    pose proof (take_drop_while is_ws l) as Htd.
    rewrite <- Htd at 2. rewrite List.filter_app, (Hws _ (forallb_take_while is_ws l)). cbn [app].
    pose proof (drop_while_head is_ws l) as Hh.
    destruct (drop_while is_ws l) as [|c t] eqn:D; cbn [tail_part List.filter]; [reflexivity|].
    assert (Hc : non_ws c = true) by (unfold non_ws; rewrite Hh; reflexivity).
    rewrite Hc. f_equal. apply IH.
    apply (f_equal (@length ascii)) in Htd. rewrite length_app in Htd. cbn in Htd. lia.
Qed.

Lemma filter_trim l : List.filter non_ws (trim_ws l) = List.filter non_ws l.
Proof.
  assert (Hws : forall g, forallb is_ws g = true -> List.filter non_ws g = []).
  { induction g as [|c t IH]; cbn; [auto|]. intros H. apply andb_true_iff in H as [Hc Ht].
    unfold non_ws at 1. rewrite Hc. auto. }
  unfold trim_ws. fold (rtrim (drop_ws l)).
  destruct (rtrim_prefix (drop_ws l)) as (suf & Hs & Hsuf).
  assert (Hl : List.filter non_ws l = List.filter non_ws (drop_ws l)).
  { rewrite <- (take_drop_while is_ws l) at 1.
    rewrite List.filter_app, (Hws _ (forallb_take_while is_ws l)), drop_ws_drop_while. reflexivity. }
  rewrite Hl. rewrite Hs at 2. rewrite List.filter_app, (Hws _ Hsuf), app_nil_r. reflexivity.
Qed.

Lemma filter_collapse_spaces l : forall b, List.filter non_ws (collapse_spaces_from b l) = List.filter non_ws l.
Proof.
  destruct SPACE_props as (_ & _ & Hs3).
  assert (Hsp : non_ws SPACE = false) by (unfold non_ws; rewrite Hs3; reflexivity).
  induction l as [|c t IH]; intros b; cbn [collapse_spaces_from]; [reflexivity|].
  destruct (is_space_tab c) eqn:Hst.
  - assert (Hc : non_ws c = false) by (unfold non_ws; rewrite (is_space_tab_ws c Hst); reflexivity).
    cbn [List.filter]. rewrite Hc.
    destruct b; cbn [List.filter]; [|rewrite Hsp]; apply IH.
  - cbn [List.filter]. rewrite IH. reflexivity.
Qed.

(** What the three steps guarantee of the text they produce. *)
Lemma cleanup_props (l : list ascii) :
  let out := collapse_spaces (trim_ws (collapse_newlines l)) in
  (forall c v, out = c :: v -> is_ws c = false) /\
  (forall u c, out = (u ++ [c])%list -> is_ws c = false) /\
  (forall u g v, out = (u ++ g ++ v)%list -> forallb is_ws g = true -> count_lf g <= 2) /\
  (forall u c d v, out = (u ++ c :: d :: v)%list -> is_space_tab c = true -> is_space_tab d = false) /\
  List.filter non_ws out = List.filter non_ws l.
Proof.
  intros out. destruct (trim_ends (collapse_newlines l)) as [Hhd Htl].
  split; [|split; [|split; [|split]]].
  - intros c v E. unfold out, collapse_spaces in E.
    destruct (trim_ws (collapse_newlines l)) as [|d r]; [discriminate|].
    cbn in E. rewrite (not_ws_not_space_tab d Hhd) in E. injection E as <- _. exact Hhd.
  - intros u c E. unfold out, collapse_spaces in E.
    destruct (rev (trim_ws (collapse_newlines l))) as [|d r] eqn:R.
    + apply (f_equal (@rev ascii)) in R. rewrite rev_involutive in R. rewrite R in E.
      cbn in E. destruct u; discriminate.
    + apply (f_equal (@rev ascii)) in R. rewrite rev_involutive in R. rewrite R in E.
      cbn in E. rewrite collapse_spaces_snoc in E by exact (not_ws_not_space_tab d Htl).
      apply app_inj_tail in E as [_ <-]. exact Htl.
  - intros u g v E Hg.
    assert (H0 : lf_ok 0 out = true).
    { apply lf_ok_collapse_spaces, lf_ok_trim, (lf_ok_collapse_newlines (length l)). lia. }
    rewrite E in H0. destruct (lf_ok_app_r u (g ++ v) 0 ltac:(lia) H0) as (m & Hm & H1).
    pose proof (lf_ok_gap g v m Hg Hm H1). lia.
  - intros u c d v E Hc. destruct (is_space_tab d) eqn:Hd; [exfalso|reflexivity].
    pose proof (st_ok_collapse_spaces (trim_ws (collapse_newlines l)) false) as H0.
    fold (collapse_spaces (trim_ws (collapse_newlines l))) in H0. fold out in H0.
    rewrite E in H0. destruct (st_ok_app u _ false H0) as (b & H1).
    cbn in H1. rewrite Hc, Hd in H1. cbn in H1. destruct b; discriminate.
  - unfold out, collapse_spaces. rewrite filter_collapse_spaces, filter_trim.
    apply (filter_collapse_newlines (length l)). lia.
Qed.

(** ** C1 *)

Import Generation.

Lemma cleanupOutput_spec (s : string) : cleanupOutput s = CleanupSpec.cleanup s.
Proof.
  unfold cleanupOutput, CleanupSpec.cleanup.
  rewrite blank_lines_pass, trim_pass, spaces_pass. reflexivity.
Qed.

Lemma renderTemplate_ok run c ctx st out st' :
  renderTemplate run c ctx st = (inr out, st') ->
  st' = st /\ exists raw, run (helpers (snd st)) c ctx = inr (JStr raw) /\ out = cleanupOutput raw.
Proof.
  unfold renderTemplate, bind, get_hb. cbn [fst snd].
  destruct (run (helpers (snd st)) c ctx) as [e|v]; [discriminate|].
  destruct v; try discriminate. intros H. injection H as <- <-. eauto.
Qed.

Lemma generate_body_ok run tc parameters mo st out ctx st' :
  generate_body run tc parameters mo st = (inr (out, ctx), st') ->
  exists h c raw, run h c ctx = inr (JStr raw) /\ out = cleanupOutput raw.
Proof.
  unfold generate_body. unfold bind at 1.
  destruct (compileTemplate tc mo st) as [[e|c] st1]; [discriminate|].
  unfold bind at 1, lift.
  destruct (prepareContext parameters tc mo) as [e|ctx1]; [discriminate|].
  unfold bind at 1.
  destruct (match GenerationOptions.customHelpers mo with
            | Some hs => registerCustomHelpers hs
            | None => ret tt
            end st1) as [[e|u] st2]; [discriminate|].
  unfold bind. destruct (renderTemplate run c ctx1 st2) as [[e|o] st3] eqn:R; [discriminate|].
  intros H. injection H as <- <- <-.
  destruct (renderTemplate_ok run c ctx1 st2 o st3 R) as [_ (raw & Hr & ->)].
  exists (helpers (snd st2)), c, raw. auto.
Qed.

(** C1: every successful [generatePrompt] returns, as [output], the
    post-processing [cleanupOutput] of the string the Handlebars template
    produced; and [cleanupOutput] is, for every string, the composition
    of the three steps the specification lists: every whitespace gap with
    three or more newlines has its newlines, with the whitespace between
    them, collapsed to exactly two newlines; then leading and trailing
    whitespace is removed; then every run of spaces and tabs becomes one
    space. Consequently the result neither starts nor ends with
    whitespace, no whitespace stretch of it holds more than two newlines,
    no two spaces or tabs are adjacent in it, and its non-whitespace
    characters are those of the rendered text, in order. *)
Theorem cleanup_applied_to_every_render :
  (forall (run : Runtime) (tc : TemplateConfig.t) (parameters : list (string * jsval))
          (opts : GenerationOptions.t) (startTime endTime : Z) (st : State),
     success (fst (generatePrompt run tc parameters opts startTime endTime st)) = true ->
     exists h c raw,
       run h c (context (fst (generatePrompt run tc parameters opts startTime endTime st)))
         = inr (JStr raw) /\
       output (fst (generatePrompt run tc parameters opts startTime endTime st)) = cleanupOutput raw) /\
  (forall s : string, cleanupOutput s = CleanupSpec.cleanup s) /\
  (forall s : string,
     let out := list_ascii_of_string (cleanupOutput s) in
     (forall c v, out = c :: v -> is_ws c = false) /\
     (forall u c, out = (u ++ [c])%list -> is_ws c = false) /\
     (forall u g v, out = (u ++ g ++ v)%list -> forallb is_ws g = true -> count_lf g <= 2) /\
     (forall u c d v, out = (u ++ c :: d :: v)%list -> is_space_tab c = true -> is_space_tab d = false) /\
     List.filter non_ws out = List.filter non_ws (list_ascii_of_string s)).
Proof.
  split; [|split; [exact cleanupOutput_spec|]].
  2:{ intros s. rewrite cleanupOutput_spec. unfold CleanupSpec.cleanup.
      rewrite list_ascii_of_string_of_list_ascii. exact (cleanup_props _). }
  intros run tc parameters opts startTime endTime st. unfold generatePrompt.
  destruct (generate_body run tc parameters (GenerationOptions.merge (options (fst st)) opts) st)
    as [[e|[out ctx]] st'] eqn:E; cbn; [discriminate|].
  intros _. exact (generate_body_ok _ _ _ _ _ _ _ _ E).
Qed.

Lemma cleanup_applied_to_every_render_witness :
  let run : Runtime := fun _ c _ => inr (JStr (c_source c)) in
  let tc := TemplateConfig.mk "t" "d"
    ("  a  " ++ String TAB (" b" ++ String LF (" " ++ String LF (String LF (String LF " c  "))))) [] in
  let st := new_TemplateGenerator GenerationOptions.empty Handlebars_empty in
  success (fst (generatePrompt run tc [] GenerationOptions.empty 10 25 st)) = true /\
  output (fst (generatePrompt run tc [] GenerationOptions.empty 10 25 st)) = ("a b" ++ String LF (String LF " c")) /\
  exists h c raw,
    run h c (context (fst (generatePrompt run tc [] GenerationOptions.empty 10 25 st))) = inr (JStr raw) /\
    output (fst (generatePrompt run tc [] GenerationOptions.empty 10 25 st)) = cleanupOutput raw.
Proof.
  intros run tc st.
  assert (Hs : success (fst (generatePrompt run tc [] GenerationOptions.empty 10 25 st)) = true)
    by (vm_compute; reflexivity).
  split; [exact Hs|]. split; [vm_compute; reflexivity|].
  exact (proj1 cleanup_applied_to_every_render run tc [] GenerationOptions.empty 10%Z 25%Z st Hs).
Defined.

End CleanupProofs.

(* ================================================================= *)
(** ** [getTemplateNames] *)

Module NamesProofs.

Lemma ascii_compare_refl (a : ascii) : Ascii.compare a a = Eq.
Proof. unfold Ascii.compare. apply N.compare_refl. Qed.

Lemma ascii_compare_lt_trans (a b c : ascii) :
  Ascii.compare a b = Lt -> Ascii.compare b c = Lt -> Ascii.compare a c = Lt.
Proof. unfold Ascii.compare. rewrite !N.compare_lt_iff. lia. Qed.

Lemma string_compare_not_gt_trans s1 : forall s2 s3,
  String.compare s1 s2 <> Gt -> String.compare s2 s3 <> Gt -> String.compare s1 s3 <> Gt.
Proof.
  induction s1 as [|a1 t1 IH]; intros [|a2 t2] [|a3 t3]; cbn; try congruence.
  intros H1 H2.
  destruct (Ascii.compare a1 a2) eqn:E12; [| |congruence];
    destruct (Ascii.compare a2 a3) eqn:E23; try congruence.
  - apply Ascii.compare_eq_iff in E12, E23. subst. rewrite ascii_compare_refl. eauto.
  - apply Ascii.compare_eq_iff in E12. subst. rewrite E23. congruence.
  - apply Ascii.compare_eq_iff in E23. subst. rewrite E12. congruence.
  - rewrite (ascii_compare_lt_trans _ _ _ E12 E23). congruence.
Qed.

#[export] Instance string_le_trans : Transitive string_le.
Proof.
  intros s1 s2 s3. unfold string_le, String.leb.
  pose proof (string_compare_not_gt_trans s1 s2 s3) as Ht.
  destruct (String.compare s1 s2), (String.compare s2 s3), (String.compare s1 s3);
    try reflexivity; intros; exfalso; apply Ht; congruence.
Qed.

#[export] Instance string_le_total : Total string_le.
Proof. intros s1 s2. apply String.leb_total. Qed.

#[export] Instance string_le_antisymm : AntiSymm (=) string_le.
Proof. intros s1 s2. apply String.leb_antisym. Qed.

Lemma getTemplateNames_elem {A} (templates : gmap string A) (x : string) :
  x ∈ getTemplateNames templates <-> is_Some (templates !! x).
Proof.
  unfold getTemplateNames. rewrite (merge_sort_Permutation string_le).
  rewrite list_elem_of_fmap. split.
  - intros ([k v] & -> & Hin). apply elem_of_map_to_list in Hin. cbn. eauto.
  - intros [v Hv]. exists (x, v). split; [reflexivity|]. by apply elem_of_map_to_list.
Qed.

(** [getTemplateNames] lists each key of the map exactly once, in
    ascending code-unit order; and it is the only list with these
    properties, so the result does not depend on how the map was built. *)
Theorem getTemplateNames_sorted_keys {A} (templates : gmap string A) :
  StronglySorted string_le (getTemplateNames templates) /\
  NoDup (getTemplateNames templates) /\
  (forall x, x ∈ getTemplateNames templates <-> is_Some (templates !! x)) /\
  (forall l, StronglySorted string_le l -> NoDup l ->
     (forall x, x ∈ l <-> is_Some (templates !! x)) -> l = getTemplateNames templates).
Proof.
  assert (Hnd : NoDup (getTemplateNames templates)).
  { unfold getTemplateNames. rewrite (merge_sort_Permutation string_le).
    apply NoDup_fst_map_to_list. }
  split; [exact (@StronglySorted_merge_sort _ string_le _ string_le_trans string_le_total _)|]. split; [exact Hnd|].
  split; [apply getTemplateNames_elem|].
  intros l Hs Hl Hel. apply (StronglySorted_unique string_le); [exact Hs|exact (@StronglySorted_merge_sort _ string_le _ string_le_trans string_le_total _)|].
  apply NoDup_Permutation; [exact Hl|exact Hnd|].
  intros x. rewrite Hel, getTemplateNames_elem. reflexivity.
Qed.

End NamesProofs.

(* ================================================================= *)
(** ** Template discovery *)

Module DiscoveryProofs.
Import TemplateDiscovery.

Section FsnodeInd.
Variable P : fsnode -> Prop.
Hypothesis HFile : P FFile.
Hypothesis HDir : forall es, Forall (fun e => P (snd e)) es -> P (FDir es).
Hypothesis HUnreadable : forall m, P (FUnreadable m).
Hypothesis HOther : P FOther.

(** Induction over file-system trees, with a hypothesis for every entry
    of a directory. *)
Fixpoint fsnode_ind2 (n : fsnode) : P n :=
  match n with
  | FFile => HFile
  | FUnreadable m => HUnreadable m
  | FOther => HOther
  | FDir es =>
      HDir es ((fix go (es : list (string * fsnode)) : Forall (fun e => P (snd e)) es :=
                  match es with
                  | [] => List.Forall_nil _
                  | (ename, c) :: t => @List.Forall_cons _ (fun e => P (snd e)) (ename, c) t (fsnode_ind2 c) (go t)
                  end) es)
  end.
End FsnodeInd.

(** The trees on which [findTemplateFiles] throws: the node is not a
    readable directory, or one of its subdirectories is a tree on which
    it throws. *)
Inductive scan_fails : fsnode -> Prop :=
| fails_unreadable m : scan_fails (FUnreadable m)
| fails_file : scan_fails FFile
| fails_other : scan_fails FOther
| fails_below es ename c : In (ename, c) es -> is_directory c = true -> scan_fails c -> scan_fails (FDir es).

Lemma find_entries_cons (find : string -> fsnode -> string + list string) dir extension ename child rest :
  find_entries find dir extension ((ename, child) :: rest) =
  if is_directory child then
    match find (path_join dir ename) child with
    | inl msg => inl ("Failed to read directory " +s+ dir +s+ ": " +s+ msg)
    | inr subFiles =>
        match find_entries find dir extension rest with
        | inl msg => inl msg
        | inr files => inr (subFiles ++ files)%list
        end
    end
  else if is_file child && ends_with ename extension then
    match find_entries find dir extension rest with
    | inl msg => inl msg
    | inr files => inr (path_join dir ename :: files)
    end
  else find_entries find dir extension rest.
Proof. reflexivity. Qed.

Lemma string_length_append (a b : string) : String.length (a +s+ b) = String.length a + String.length b.
Proof. induction a as [|c t IH]; [reflexivity|exact (f_equal S IH)]. Qed.

Lemma substring_append_r (a b : string) (n m : nat) :
  String.substring (String.length a + n) m (a +s+ b) = String.substring n m b.
Proof. induction a as [|c t IH]; [reflexivity|exact IH]. Qed.

Lemma ends_with_append (a b suffix : string) :
  ends_with b suffix = true -> ends_with (a +s+ b) suffix = true.
Proof.
  unfold ends_with. intros [Hle Heq]%andb_prop. apply Nat.leb_le in Hle.
  rewrite string_length_append.
  replace (String.length a + String.length b - String.length suffix)
    with (String.length a + (String.length b - String.length suffix)) by lia.
  rewrite substring_append_r, Heq, andb_true_r. apply Nat.leb_le. lia.
Qed.

Lemma path_join_ends_with (dir ename extension : string) :
  ends_with ename extension = true -> ends_with (path_join dir ename) extension = true.
Proof.
  intros H. unfold path_join. destruct (ends_with dir "/").
  - by apply ends_with_append.
  - apply ends_with_append. by apply (ends_with_append "/").
Qed.

Lemma find_ok_ends_with (extension : string) (node : fsnode) : forall dir files,
  findTemplateFiles dir extension node = inr files ->
  Forall (fun f => ends_with f extension = true) files.
Proof.
  induction node as [| es IHes | m |] using fsnode_ind2; intros dir files H; try discriminate H.
  cbn [findTemplateFiles] in H. revert files H.
  induction IHes as [|[ename c] rest IHc _ IHrest]; intros files H.
  - cbn in H. injection H as <-. constructor.
  - rewrite find_entries_cons in H. cbn [snd] in IHc.
    destruct (is_directory c).
    + destruct (findTemplateFiles (path_join dir ename) extension c) as [m|sub] eqn:Ec; [discriminate H|].
      destruct (find_entries _ dir extension rest) as [m|fs] eqn:Er; [discriminate H|].
      injection H as <-. apply Forall_app. split; [exact (IHc _ _ Ec)|exact (IHrest _ eq_refl)].
    + destruct (is_file c && ends_with ename extension) eqn:Ef.
      * destruct (find_entries _ dir extension rest) as [m|fs] eqn:Er; [discriminate H|].
        injection H as <-. constructor; [|exact (IHrest _ eq_refl)].
        apply andb_prop in Ef as [_ Ee]. by apply path_join_ends_with.
      * exact (IHrest _ H).
Qed.

Lemma scan_fails_tail e es : scan_fails (FDir es) -> scan_fails (FDir (e :: es)).
Proof.
  intros Hf. inversion Hf as [| | |es' ename c Hin Hd Hc]; subst.
  apply (fails_below _ ename c); [right; exact Hin|exact Hd|exact Hc].
Qed.

Lemma find_fails_iff (extension : string) (node : fsnode) : forall dir,
  (exists msg, findTemplateFiles dir extension node = inl msg) <-> scan_fails node.
Proof.
  induction node as [| es IHes | m |] using fsnode_ind2; intros dir.
  - split; [intros _; constructor|intros _; eexists; reflexivity].
  - cbn [findTemplateFiles]. split.
    + intros [msg H]. revert msg H.
      induction IHes as [|[ename c] rest IHc _ IHrest]; intros msg H; [discriminate H|].
      cbn [snd] in IHc. rewrite find_entries_cons in H.
      destruct (is_directory c) eqn:Ed.
      * destruct (findTemplateFiles (path_join dir ename) extension c) as [m|sub] eqn:Ec.
        -- apply (fails_below _ ename c); [left; reflexivity|exact Ed|].
           apply (IHc (path_join dir ename)). eauto.
        -- destruct (find_entries _ dir extension rest) as [m|fs] eqn:Er; [|discriminate H].
           apply scan_fails_tail. exact (IHrest m eq_refl).
      * destruct (is_file c && ends_with ename extension).
        -- destruct (find_entries _ dir extension rest) as [m|fs] eqn:Er; [|discriminate H].
           apply scan_fails_tail. exact (IHrest m eq_refl).
        -- apply scan_fails_tail. exact (IHrest msg H).
    + intros Hf. inversion Hf as [| | |es' ename0 c0 Hin Hd Hc]; subst.
      clear Hf. induction IHes as [|[ename c] rest IHc _ IHrest]; [destruct Hin|].
      cbn [snd] in IHc. rewrite find_entries_cons.
      destruct Hin as [Heq|Hin].
      * injection Heq as -> ->. rewrite Hd.
        destruct (proj2 (IHc (path_join dir ename0)) Hc) as [m ->]. eauto.
      * destruct (IHrest Hin) as [m Hm].
        destruct (is_directory c).
        -- destruct (findTemplateFiles (path_join dir ename) extension c); [eauto|].
           rewrite Hm. eauto.
        -- destruct (is_file c && ends_with ename extension); rewrite Hm; eauto.
  - split; [intros _; constructor|intros _; eexists; reflexivity].
  - split; [intros _; constructor|intros _; eexists; reflexivity].
Qed.

Lemma find_error_prefix (extension : string) (node : fsnode) (dir msg : string) :
  findTemplateFiles dir extension node = inl msg ->
  exists m, msg = "Failed to read directory " +s+ dir +s+ ": " +s+ m.
Proof.
  destruct node as [|es|m|]; cbn [findTemplateFiles]; intros H;
    try (injection H as <-; eexists; reflexivity).
  revert msg H. induction es as [|[ename c] rest IH]; intros msg H; [discriminate H|].
  rewrite find_entries_cons in H. destruct (is_directory c).
  - destruct (findTemplateFiles (path_join dir ename) extension c).
    + injection H as <-. eexists; reflexivity.
    + destruct (find_entries _ dir extension rest) eqn:Er; [|discriminate H].
      injection H as <-. exact (IH _ eq_refl).
  - destruct (is_file c && ends_with ename extension).
    + destruct (find_entries _ dir extension rest) eqn:Er; [|discriminate H].
      injection H as <-. exact (IH _ eq_refl).
    + exact (IH _ H).
Qed.

Lemma loadTemplate_ok (import_module : string -> thrown + jsval) (f : string) (t : TemplateDefinition) :
  loadTemplate import_module f = inr t ->
  filePath t = f /\ name t = name_of (config t) /\ Types.isValidTemplateConfig (config t) = true.
Proof.
  unfold loadTemplate. destruct (import_module f) as [[m|m|m|m]|md]; try discriminate.
  destruct (negb (ToBoolean _)); [discriminate|].
  destruct (Types.isValidTemplateConfig _) eqn:Hv; [|discriminate].
  intros H. injection H as <-. cbn. auto.
Qed.

Lemma valid_config_name (config : jsval) :
  Types.isValidTemplateConfig config = true -> get config "name" = JStr (name_of config).
Proof.
  unfold Types.isValidTemplateConfig, name_of, typeof_is.
  intros H. repeat (apply andb_prop in H as [H ?]).
  destruct (get config "name"); try discriminate. reflexivity.
Qed.

Lemma load_all_app (import_module : string -> thrown + jsval) (f1 f2 : list string)
    (T : gmap string TemplateDefinition) (E : list DiscoveryError.t) :
  load_all import_module (f1 ++ f2)%list T E =
  load_all import_module f2 (templates (load_all import_module f1 T E)) (errors (load_all import_module f1 T E)).
Proof.
  revert T E. induction f1 as [|fp rest IH]; intros T E; [reflexivity|].
  cbn. destruct (loadTemplate import_module fp); apply IH.
Qed.

Lemma load_all_errors (import_module : string -> thrown + jsval) (files : list string) :
  forall T E, errors (load_all import_module files T E) =
  (E ++ List.flat_map (fun f => match loadTemplate import_module f with
                                | inl e => [createDiscoveryError f e]
                                | inr _ => []
                                end) files)%list.
Proof.
  induction files as [|fp rest IH]; intros T E; cbn; [by rewrite app_nil_r|].
  destruct (loadTemplate import_module fp); rewrite IH; [by rewrite app_assoc|reflexivity].
Qed.

Lemma snoc_split {A} (f1 f2 files : list A) (f g : A) :
  (f1 ++ f :: f2 = files ++ [g])%list ->
  (f2 = [] /\ f = g /\ f1 = files) \/ (exists f2', f2 = (f2' ++ [g])%list /\ files = (f1 ++ f :: f2')%list).
Proof.
  destruct f2 as [|x f2'] using rev_ind; intros H.
  - left. apply app_inj_tail in H as [-> ->]. auto.
  - right. rewrite app_comm_cons, app_assoc in H. apply app_inj_tail in H as [<- ->]. eauto.
Qed.

(** No file after the decomposition point loads a template of name [n]. *)
Definition none_named (import_module : string -> thrown + jsval) (l : list string) (n : string) : Prop :=
  forall f' t', In f' l -> loadTemplate import_module f' = inr t' -> name t' <> n.

Lemma load_all_templates (import_module : string -> thrown + jsval) (files : list string) (E : list DiscoveryError.t)
    (n : string) (t : TemplateDefinition) :
  templates (load_all import_module files ∅ E) !! n = Some t <->
  exists f1 f f2, files = (f1 ++ f :: f2)%list /\ loadTemplate import_module f = inr t /\ name t = n /\
    none_named import_module f2 n.
Proof.
  revert t. induction files as [|g files IH] using rev_ind; intros t.
  - cbn. rewrite lookup_empty. split; [discriminate|].
    intros (f1 & f & f2 & H & _). by apply app_cons_not_nil in H.
  - rewrite load_all_app. cbn [load_all].
    destruct (loadTemplate import_module g) as [e|tg] eqn:Eg; cbn [templates].
    + rewrite IH. split.
      * intros (f1 & f & f2 & -> & Hl & Hn & Hf). exists f1, f, (f2 ++ [g])%list.
        rewrite <- app_assoc. split; [reflexivity|]. split; [exact Hl|]. split; [exact Hn|].
        intros f' t' Hin Hl'. apply in_app_iff in Hin as [Hin|[<-|[]]]; [exact (Hf f' t' Hin Hl')|congruence].
      * intros (f1 & f & f2 & Hs & Hl & Hn & Hf). destruct (snoc_split f1 f2 files f g (eq_sym Hs))
          as [(-> & -> & ->)|(f2' & -> & ->)]; [congruence|].
        exists f1, f, f2'. split; [reflexivity|]. split; [exact Hl|]. split; [exact Hn|].
        intros f' t' Hin. apply Hf. apply in_app_iff. left. exact Hin.
    + destruct (String.eqb (name tg) n) eqn:En.
      * apply String.eqb_eq in En. subst n. rewrite lookup_insert_eq. split.
        -- intros Ht. injection Ht as <-. exists files, g, []. split; [reflexivity|].
           split; [exact Eg|]. split; [reflexivity|]. intros f' t' [].
        -- intros (f1 & f & f2 & Hs & Hl & Hn & Hf). destruct (snoc_split f1 f2 files f g (eq_sym Hs))
             as [(-> & -> & ->)|(f2' & -> & ->)]; [congruence|].
           exfalso. apply (Hf g tg); [apply in_app_iff; right; left; reflexivity|exact Eg|reflexivity].
      * apply String.eqb_neq in En. rewrite lookup_insert_ne by exact En. rewrite IH. split.
        -- intros (f1 & f & f2 & -> & Hl & Hn & Hf). exists f1, f, (f2 ++ [g])%list.
           rewrite <- app_assoc. split; [reflexivity|]. split; [exact Hl|]. split; [exact Hn|].
           intros f' t' Hin Hl'. apply in_app_iff in Hin as [Hin|[<-|[]]]; [exact (Hf f' t' Hin Hl')|].
           rewrite Eg in Hl'. injection Hl' as <-. exact En.
        -- intros (f1 & f & f2 & Hs & Hl & Hn & Hf). destruct (snoc_split f1 f2 files f g (eq_sym Hs))
             as [(-> & -> & ->)|(f2' & -> & ->)].
           ++ rewrite Eg in Hl. injection Hl as <-. congruence.
           ++ exists f1, f, f2'. split; [reflexivity|]. split; [exact Hl|]. split; [exact Hn|].
              intros f' t' Hin. apply Hf. apply in_app_iff. left. exact Hin.
Qed.

Lemma discoverTemplates_ok (resolve : string -> string) (fs : string -> fsnode)
    (import_module : string -> thrown + jsval) (templatesDir extension : string) (files : list string) :
  findTemplateFiles (resolve templatesDir) extension (fs (resolve templatesDir)) = inr files ->
  discoverTemplates resolve fs import_module templatesDir extension = load_all import_module files ∅ [].
Proof. intros H. unfold discoverTemplates. cbv zeta. by rewrite H. Qed.

(** Every path [findTemplateFiles] returns ends with the extension. *)
Theorem findTemplateFiles_extension (dir extension : string) (node : fsnode) (files : list string)
    (Hfind : findTemplateFiles dir extension node = inr files) :
  forall f, In f files -> ends_with f extension = true.
Proof. exact (proj1 (List.Forall_forall _ _) (find_ok_ends_with extension node dir files Hfind)). Qed.

(** [findTemplateFiles] throws exactly on the trees where the directory
    or one of its subdirectories, at any depth, cannot be listed; its
    message then starts with the directory it was called on. *)
Theorem findTemplateFiles_failure (dir extension : string) (node : fsnode) :
  ((exists msg, findTemplateFiles dir extension node = inl msg) <-> scan_fails node) /\
  (forall msg, findTemplateFiles dir extension node = inl msg ->
     exists m, msg = "Failed to read directory " +s+ dir +s+ ": " +s+ m).
Proof. split; [apply find_fails_iff|apply find_error_prefix]. Qed.

(** When the scan of the templates directory throws (one directory of
    the tree cannot be listed), discovery loads no template and reports
    exactly one error, of type file-system, for the templates directory
    as given; and only then is a file-system error reported. *)
Theorem discoverTemplates_scan_failure (resolve : string -> string) (fs : string -> fsnode)
    (import_module : string -> thrown + jsval) (templatesDir extension : string) :
  let r := discoverTemplates resolve fs import_module templatesDir extension in
  (scan_fails (fs (resolve templatesDir)) ->
     templates r = ∅ /\
     exists m, errors r = [DiscoveryError.mk templatesDir FileSystem
                            ("Failed to access templates directory: Failed to read directory "
                             +s+ resolve templatesDir +s+ ": " +s+ m)]) /\
  (forall e, In e (errors r) -> DiscoveryError.type e = FileSystem -> scan_fails (fs (resolve templatesDir))).
Proof.
  cbv zeta. split.
  - intros Hs. apply (find_fails_iff extension _ (resolve templatesDir)) in Hs as [msg Hm].
    destruct (find_error_prefix _ _ _ _ Hm) as [m ->].
    unfold discoverTemplates. cbv zeta. rewrite Hm. split; [reflexivity|]. exists m. reflexivity.
  - intros e Hin Ht.
    destruct (findTemplateFiles (resolve templatesDir) extension (fs (resolve templatesDir))) as [msg|files] eqn:Ef.
    + apply (find_fails_iff extension _ (resolve templatesDir)). eauto.
    + exfalso. rewrite (discoverTemplates_ok _ _ _ _ _ _ Ef), load_all_errors in Hin. cbn in Hin.
      apply in_flat_map in Hin as (f & _ & Hin).
      destruct (loadTemplate import_module f) as [th|] eqn:El; [|destruct Hin].
      destruct Hin as [<-|[]]. revert El Ht. unfold loadTemplate.
      destruct (import_module f) as [[m|m|m|m]|md]; intros El; try (injection El as <-; discriminate).
      destruct (negb (ToBoolean _)); [injection El as <-; discriminate|].
      destruct (Types.isValidTemplateConfig _); [discriminate|injection El as <-; discriminate].
Qed.

(** When the scan succeeds, discovery reports one error per template file
    that fails to load, in the order of the files, with that file's path;
    no error is of type file-system. *)
Theorem discoverTemplates_errors (resolve : string -> string) (fs : string -> fsnode)
    (import_module : string -> thrown + jsval) (templatesDir extension : string) (files : list string)
    (Hfind : findTemplateFiles (resolve templatesDir) extension (fs (resolve templatesDir)) = inr files) :
  let r := discoverTemplates resolve fs import_module templatesDir extension in
  errors r = List.flat_map (fun f => match loadTemplate import_module f with
                                     | inl e => [createDiscoveryError f e]
                                     | inr _ => []
                                     end) files /\
  (forall e, In e (errors r) -> DiscoveryError.type e <> FileSystem /\ In (DiscoveryError.filePath e) files).
Proof.
  cbv zeta. rewrite (discoverTemplates_ok _ _ _ _ _ _ Hfind), load_all_errors. cbn [app].
  split; [reflexivity|]. intros e Hin.
  apply in_flat_map in Hin as (f & Hf & Hin).
  destruct (loadTemplate import_module f) as [th|] eqn:El; [|destruct Hin].
  destruct Hin as [<-|[]]. revert El. unfold loadTemplate.
  destruct (import_module f) as [[m|m|m|m]|md]; intros El; try (injection El as <-; split; [discriminate|exact Hf]).
  destruct (negb (ToBoolean _)); [injection El as <-; split; [discriminate|exact Hf]|].
  destruct (Types.isValidTemplateConfig _); [discriminate|injection El as <-; split; [discriminate|exact Hf]].
Qed.

(** When the scan succeeds, the template stored under a name is the one
    loaded from the last template file whose configuration has that
    name; it is stored under its configuration's name, its configuration
    passes [isValidTemplateConfig], and its [filePath] is a scanned file. *)
Theorem discoverTemplates_templates (resolve : string -> string) (fs : string -> fsnode)
    (import_module : string -> thrown + jsval) (templatesDir extension : string) (files : list string)
    (Hfind : findTemplateFiles (resolve templatesDir) extension (fs (resolve templatesDir)) = inr files) :
  let r := discoverTemplates resolve fs import_module templatesDir extension in
  forall n t,
  (templates r !! n = Some t <->
   exists f1 f f2, files = (f1 ++ f :: f2)%list /\ loadTemplate import_module f = inr t /\ name t = n /\
     forall f' t', In f' f2 -> loadTemplate import_module f' = inr t' -> name t' <> n) /\
  (templates r !! n = Some t ->
   name t = n /\ get (config t) "name" = JStr n /\ Types.isValidTemplateConfig (config t) = true /\
   In (filePath t) files).
Proof.
  cbv zeta. rewrite (discoverTemplates_ok _ _ _ _ _ _ Hfind). intros n t.
  split; [apply load_all_templates|].
  intros Ht. apply load_all_templates in Ht as (f1 & f & f2 & -> & Hl & <- & _).
  destruct (loadTemplate_ok _ _ _ Hl) as (Hp & Hn & Hv).
  split; [reflexivity|]. split; [rewrite Hn; by apply valid_config_name|]. split; [exact Hv|].
  rewrite Hp. apply in_app_iff. right. left. reflexivity.
Qed.

(** The error reported for a template file that fails to load: an import
    that throws a [ValidationError] keeps its message; any other thrown
    value, a [FileSystemError] included, becomes a load error whose
    message carries both prefixes; a module without a truthy [default] or
    [config] export, or with an invalid configuration, gives a validation
    error. *)
Theorem load_failure_report (import_module : string -> thrown + jsval) (f : string) (e : thrown)
    (Hload : loadTemplate import_module f = inl e) :
  createDiscoveryError f e =
  match import_module f with
  | inl (TValidation m) => DiscoveryError.mk f Validation m
  | inl th => DiscoveryError.mk f Load
                ("Failed to load template: Failed to load template from " +s+ f +s+ ": " +s+ thrown_message th)
  | inr templateModule =>
      DiscoveryError.mk f Validation
        (if ToBoolean (if ToBoolean (get templateModule "default") then get templateModule "default"
                       else get templateModule "config")
         then "Template configuration does not match required structure"
         else "Template file must export a default config or named 'config' export")
  end.
Proof.
  revert Hload. unfold loadTemplate.
  destruct (import_module f) as [[m|m|m|m]|md]; intros H; injection H as <- || idtac; try reflexivity.
  destruct (ToBoolean (if ToBoolean (get md "default") then get md "default" else get md "config")); cbn in H.
  - destruct (Types.isValidTemplateConfig _); [discriminate|injection H as <-; reflexivity].
  - injection H as <-. reflexivity.
Qed.

(** ** Examples *)

Definition ex_config (n : string) : jsval :=
  JObject [("name", JStr n); ("description", JStr "An example"); ("template", JStr "Hello {{who}}");
           ("parameters", JObject [("who", JObject [("description", JStr "Name"); ("required", JBool true);
                                                     ("type", JStr "string")])])].

(** [/t] holds [a.ts], [sub/b.ts], [sub/notes.md] and [z.ts]; a second
    tree has a subdirectory that cannot be listed. *)
Definition ex_fs (p : string) : fsnode :=
  if String.eqb p "/t" then
    FDir [("a.ts", FFile); ("sub", FDir [("b.ts", FFile); ("notes.md", FFile)]); ("z.ts", FFile)]
  else if String.eqb p "/u" then
    FDir [("a.ts", FFile); ("private", FUnreadable "EACCES: permission denied, scandir '/u/private'")]
  else FUnreadable "ENOENT: no such file or directory".

(** [a.ts] exports a default config named "x", [z.ts] a [config] export
    also named "x"; importing [sub/b.ts] throws a [FileSystemError]. *)
Definition ex_import (f : string) : thrown + jsval :=
  if String.eqb f "/t/a.ts" then inr (JObject [("default", ex_config "x")])
  else if String.eqb f "/t/z.ts" then inr (JObject [("default", JNull); ("config", ex_config "x")])
  else if String.eqb f "/t/sub/b.ts" then inl (TFileSystem "disk error")
  else inl (TNonError "not found").

Definition ex_files : list string := ["/t/a.ts"; "/t/sub/b.ts"; "/t/z.ts"].

Lemma findTemplateFiles_extension_witness :
  findTemplateFiles "/t" ".ts" (ex_fs "/t") = inr ex_files /\ ends_with "/t/sub/b.ts" ".ts" = true.
Proof.
  assert (H : findTemplateFiles "/t" ".ts" (ex_fs "/t") = inr ex_files) by (vm_compute; reflexivity).
  split; [exact H|]. apply (findTemplateFiles_extension "/t" ".ts" (ex_fs "/t") ex_files H).
  right; left; reflexivity.
Defined.

Lemma findTemplateFiles_failure_witness :
  exists msg, findTemplateFiles "/u" ".ts" (ex_fs "/u") = inl msg.
Proof.
  apply (proj2 (proj1 (findTemplateFiles_failure "/u" ".ts" (ex_fs "/u")))).
  apply (fails_below _ "private" (FUnreadable "EACCES: permission denied, scandir '/u/private'")).
  - right; left; reflexivity.
  - reflexivity.
  - constructor.
Defined.

Lemma discoverTemplates_scan_failure_witness :
  scan_fails (ex_fs "/u") /\
  templates (discoverTemplates (fun d => d) ex_fs ex_import "/u" ".ts") = ∅ /\
  exists m, errors (discoverTemplates (fun d => d) ex_fs ex_import "/u" ".ts") =
    [DiscoveryError.mk "/u" FileSystem ("Failed to access templates directory: Failed to read directory /u: " +s+ m)].
Proof.
  assert (Hs : scan_fails (ex_fs "/u")).
  { apply (fails_below _ "private" (FUnreadable "EACCES: permission denied, scandir '/u/private'")).
    - right; left; reflexivity.
    - reflexivity.
    - constructor. }
  split; [exact Hs|].
  exact (proj1 (discoverTemplates_scan_failure (fun d => d) ex_fs ex_import "/u" ".ts") Hs).
Defined.

Lemma discoverTemplates_errors_witness :
  findTemplateFiles "/t" ".ts" (ex_fs "/t") = inr ex_files /\
  errors (discoverTemplates (fun d => d) ex_fs ex_import "/t" ".ts") =
    [DiscoveryError.mk "/t/sub/b.ts" Load
       "Failed to load template: Failed to load template from /t/sub/b.ts: disk error"].
Proof.
  assert (H : findTemplateFiles "/t" ".ts" (ex_fs "/t") = inr ex_files) by (vm_compute; reflexivity).
  split; [exact H|].
  rewrite (proj1 (discoverTemplates_errors (fun d => d) ex_fs ex_import "/t" ".ts" ex_files H)).
  vm_compute. reflexivity.
Defined.

Lemma discoverTemplates_templates_witness :
  findTemplateFiles "/t" ".ts" (ex_fs "/t") = inr ex_files /\
  templates (discoverTemplates (fun d => d) ex_fs ex_import "/t" ".ts") !! "x" =
    Some {| name := "x"; config := ex_config "x"; filePath := "/t/z.ts" |}.
Proof.
  assert (H : findTemplateFiles "/t" ".ts" (ex_fs "/t") = inr ex_files) by (vm_compute; reflexivity).
  split; [exact H|].
  apply (proj2 (proj1 (discoverTemplates_templates (fun d => d) ex_fs ex_import "/t" ".ts" ex_files H "x"
                         {| name := "x"; config := ex_config "x"; filePath := "/t/z.ts" |}))).
  exists ["/t/a.ts"; "/t/sub/b.ts"], "/t/z.ts", [].
  split; [reflexivity|]. split; [vm_compute; reflexivity|]. split; [reflexivity|].
  intros f' t' [].
Defined.

Lemma load_failure_report_witness :
  loadTemplate ex_import "/t/sub/b.ts" = inl (TError "Failed to load template from /t/sub/b.ts: disk error") /\
  createDiscoveryError "/t/sub/b.ts" (TError "Failed to load template from /t/sub/b.ts: disk error") =
    DiscoveryError.mk "/t/sub/b.ts" Load "Failed to load template: Failed to load template from /t/sub/b.ts: disk error".
Proof.
  assert (H : loadTemplate ex_import "/t/sub/b.ts" = inl (TError "Failed to load template from /t/sub/b.ts: disk error"))
    by (vm_compute; reflexivity).
  split; [exact H|].
  rewrite (load_failure_report ex_import "/t/sub/b.ts" _ H). vm_compute. reflexivity.
Defined.

End DiscoveryProofs.

(* ================================================================= *)
(** ** The query methods of the registry *)

Module RegistryQueryProofs.
Import Discovery RegistryQueries.

Lemma getTemplateNames_empty {A} : getTemplateNames (∅ : gmap string A) = [].
Proof. unfold getTemplateNames. rewrite map_to_list_empty. reflexivity. Qed.

Lemma getTemplateNames_length {A} (m : gmap string A) : length (getTemplateNames m) = size m.
Proof.
  unfold getTemplateNames. rewrite (merge_sort_Permutation string_le), length_fmap.
  apply length_map_to_list.
Qed.

(** A [refresh()] call empties the registry at once: until its scan
    resolves, the synchronous queries see no template, no error and no
    completed discovery, and a [discover()] call made meanwhile joins the
    scan in flight instead of returning a cached result. *)
Theorem refresh_in_flight (st : TemplateRegistry.t) :
  let st' := snd (TemplateRegistry.refresh st) in
  getTemplateNamesSync st' = [] /\
  getDiscoveryErrors st' = [] /\
  hasDiscoveryErrors st' = false /\
  getDiscoverySummary st' = {| discovered := false; templateCount := 0; errorCount := 0; hasErrors := false |} /\
  exists p, TemplateRegistry.discoveryPromise st' = Some p /\
            TemplateRegistry.discover false st' = (TemplateRegistry.Joined p, st').
Proof.
  unfold TemplateRegistry.refresh, TemplateRegistry.discover. cbn.
  destruct (TemplateRegistry.discoveryPromise st) as [p|]; cbn;
    unfold getTemplateNamesSync; cbn; rewrite getTemplateNames_empty;
    (split; [reflexivity|]); (split; [reflexivity|]); (split; [reflexivity|]); (split; [reflexivity|]);
    eexists; split; reflexivity.
Qed.

(** The registry's map is always the map of its last completed discovery
    (empty when there is none). *)
Lemma reachable_templates (fs : FileSystem) (st : TemplateRegistry.t) :
  reachable fs st ->
  TemplateRegistry.templates st =
    match TemplateRegistry.lastDiscovery st with Some r => Discovery.templates r | None => ∅ end.
Proof.
  induction 1 as [|force st _ IH|st _ IH|p st _ _ IH].
  - reflexivity.
  - unfold TemplateRegistry.discover.
    destruct force, (TemplateRegistry.lastDiscovery st) eqn:El, (TemplateRegistry.discoveryPromise st);
      cbn; rewrite ?El; exact IH.
  - unfold TemplateRegistry.refresh, TemplateRegistry.discover. cbn.
    destruct (TemplateRegistry.discoveryPromise st); reflexivity.
  - reflexivity.
Qed.

(** In every state a registry reaches, the names [getTemplateNamesSync]
    returns are the templates of the last completed discovery, and there
    are as many as [getDiscoverySummary] counts. *)
Theorem names_match_summary (fs : FileSystem) (st : TemplateRegistry.t) (Hr : reachable fs st) :
  length (getTemplateNamesSync st) = templateCount (getDiscoverySummary st) /\
  (forall n, n ∈ getTemplateNamesSync st <->
     exists r, TemplateRegistry.lastDiscovery st = Some r /\ is_Some (Discovery.templates r !! n)).
Proof.
  pose proof (reachable_templates fs st Hr) as Ht. unfold getTemplateNamesSync, getDiscoverySummary.
  rewrite Ht. split.
  - destruct (TemplateRegistry.lastDiscovery st); cbn; rewrite getTemplateNames_length; [reflexivity|].
    apply map_size_empty.
  - intros n. rewrite NamesProofs.getTemplateNames_elem.
    destruct (TemplateRegistry.lastDiscovery st) as [r|].
    + split; [eauto|]. intros (r' & Hr' & Hs). injection Hr' as <-. exact Hs.
    + rewrite lookup_empty. split; [intros []; discriminate|]. intros (r' & Hr' & _). discriminate.
Qed.

(** ** Examples *)

Definition ex_def : TemplateDefinition :=
  {| name := "review"; config := TemplateConfig.mk "review" "Code review" "Review {{file}}" [];
     filePath := "/t/review.ts" |}.

Definition ex_scan : FileSystem := fun _ => ({["review" := ex_def]}, []).

Lemma names_match_summary_witness :
  reachable ex_scan (snd (TemplateRegistry.discover_resume ex_scan 0 (snd (TemplateRegistry.discover false TemplateRegistry.empty)))) /\
  length (getTemplateNamesSync (snd (TemplateRegistry.discover_resume ex_scan 0 (snd (TemplateRegistry.discover false TemplateRegistry.empty)))))
    = templateCount (getDiscoverySummary (snd (TemplateRegistry.discover_resume ex_scan 0 (snd (TemplateRegistry.discover false TemplateRegistry.empty))))).
Proof.
  assert (H : reachable ex_scan (snd (TemplateRegistry.discover_resume ex_scan 0 (snd (TemplateRegistry.discover false TemplateRegistry.empty))))).
  { apply reach_resume; [reflexivity|]. apply reach_discover. apply reach_new. }
  split; [exact H|]. exact (proj1 (names_match_summary _ _ H)).
Defined.

End RegistryQueryProofs.

(* ================================================================= *)
(** ** The template cache and the generator state *)

Module GenerationExtraProofs.
Import Generation GenerationCache.

(** The compiled template a cache miss stores. *)
Definition compiled_of (tc : TemplateConfig.t) (opts : GenerationOptions.t) : Compiled :=
  {| c_source := TemplateConfig.template tc;
     c_strict := default false (GenerationOptions.strict opts);
     c_noEscape := default true (GenerationOptions.noEscape opts) |}.

Lemma compileTemplate_hit (tc : TemplateConfig.t) (opts : GenerationOptions.t) (tg : TemplateGenerator)
    (hb : Handlebars) (c : Compiled) :
  compiledTemplates tg !! TemplateConfig.name tc = Some c ->
  compileTemplate tc opts (tg, hb) = (inr c, (tg, hb)).
Proof. intros Hc. cbn. rewrite Hc. reflexivity. Qed.

Lemma compileTemplate_miss (tc : TemplateConfig.t) (opts : GenerationOptions.t) (tg : TemplateGenerator)
    (hb : Handlebars) :
  compiledTemplates tg !! TemplateConfig.name tc = None ->
  TemplateConfig.template tc <> "" ->
  (Z.of_nat (String.length (TemplateConfig.template tc)) <= maxSize tg)%Z ->
  compileTemplate tc opts (tg, hb) =
    (inr (compiled_of tc opts),
     (set_compiled tg (<[TemplateConfig.name tc := compiled_of tc opts]> (compiledTemplates tg)), hb)).
Proof.
  intros Hc Hne Hle. cbn. rewrite Hc.
  apply String.eqb_neq in Hne. rewrite Hne.
  assert (Hlt : Z.ltb (maxSize tg) (Z.of_nat (String.length (TemplateConfig.template tc))) = false)
    by (apply Z.ltb_ge; exact Hle).
  rewrite Hlt. reflexivity.
Qed.

Lemma compileTemplate_ok_cases (tc : TemplateConfig.t) (opts : GenerationOptions.t) (tg : TemplateGenerator)
    (hb : Handlebars) (c : Compiled) :
  fst (compileTemplate tc opts (tg, hb)) = inr c ->
  (compiledTemplates tg !! TemplateConfig.name tc = Some c /\ snd (compileTemplate tc opts (tg, hb)) = (tg, hb)) \/
  (compiledTemplates tg !! TemplateConfig.name tc = None /\ c = compiled_of tc opts /\
   snd (compileTemplate tc opts (tg, hb)) =
     (set_compiled tg (<[TemplateConfig.name tc := compiled_of tc opts]> (compiledTemplates tg)), hb)).
Proof.
  cbn. destruct (compiledTemplates tg !! TemplateConfig.name tc) as [c0|] eqn:Hc.
  - intros H. injection H as <-. left. auto.
  - destruct (String.eqb (TemplateConfig.template tc) ""); [discriminate|].
    destruct (Z.ltb _ _); [discriminate|]. intros H. injection H as <-. right. auto.
Qed.

(** The cache is keyed by the template name alone: once a compile of a
    configuration succeeds, every later compile of a configuration with
    the same name, whatever its source and options, returns the same
    compiled template and changes nothing.  On a cache miss the compiled
    template is the configuration's own source with the options' [strict]
    and [noEscape]. *)
Theorem compile_cache_keyed_by_name (tc tc' : TemplateConfig.t) (opts opts' : GenerationOptions.t)
    (st : State) (c : Compiled)
    (Hok : fst (compileTemplate tc opts st) = inr c)
    (Hname : TemplateConfig.name tc' = TemplateConfig.name tc) :
  compileTemplate tc' opts' (snd (compileTemplate tc opts st)) = (inr c, snd (compileTemplate tc opts st)) /\
  (compiledTemplates (fst st) !! TemplateConfig.name tc = None -> c = compiled_of tc opts).
Proof.
  destruct st as [tg hb].
  destruct (compileTemplate_ok_cases tc opts tg hb c Hok) as [(Hc & ->)|(Hc & -> & ->)].
  - split; [|cbn; congruence]. apply compileTemplate_hit. rewrite Hname. exact Hc.
  - split; [|reflexivity]. apply compileTemplate_hit. cbn. rewrite Hname. apply lookup_insert_eq.
Qed.

(** [getCacheStats] of a new generator counts no compiled template and
    the ten default helpers; [clearCache] empties the cache and keeps the
    helpers; after it, a template whose source is non-empty and within
    the size limit is compiled again from its current source. *)
Theorem cache_stats_and_clear (tg : TemplateGenerator) (hb : Handlebars) (tc : TemplateConfig.t)
    (opts : GenerationOptions.t)
    (Hne : TemplateConfig.template tc <> "")
    (Hle : (Z.of_nat (String.length (TemplateConfig.template tc)) <= maxSize tg)%Z) :
  (forall (opts0 : GenerationOptions.t) (hb0 : Handlebars),
     getCacheStats (fst (new_TemplateGenerator opts0 hb0)) = CacheStats.mk 0 10) /\
  getCacheStats (clearCache tg) = CacheStats.mk 0 (size (registeredHelpers tg)) /\
  fst (compileTemplate tc opts (clearCache tg, hb)) = inr (compiled_of tc opts) /\
  getCacheStats (fst (snd (compileTemplate tc opts (clearCache tg, hb)))) =
    CacheStats.mk 1 (size (registeredHelpers tg)).
Proof.
  split.
  - intros opts0 hb0. destruct (GenerationProofs.new_TemplateGenerator_spec opts0 hb0) as (_ & Hs & Hc & _).
    unfold getCacheStats. rewrite Hs, Hc, map_size_empty. vm_compute. reflexivity.
  - split; [unfold getCacheStats; cbn; rewrite map_size_empty; reflexivity|].
    rewrite compileTemplate_miss; [|apply lookup_empty|exact Hne|exact Hle].
    split; [reflexivity|]. unfold getCacheStats. cbn.
    rewrite insert_empty, map_size_singleton. reflexivity.
Qed.

(** What a generator method may change: it keeps the options, evicts no
    cache entry, forgets no registered helper name, and leaves the global
    helper of every name the instance has registered as it was. *)
Definition grows (st st' : State) : Prop :=
  options (fst st') = options (fst st) /\
  compiledTemplates (fst st) ⊆ compiledTemplates (fst st') /\
  registeredHelpers (fst st) ⊆ registeredHelpers (fst st') /\
  (forall n, n ∈ registeredHelpers (fst st) -> helpers (snd st') !! n = helpers (snd st) !! n).

Lemma grows_refl st : grows st st.
Proof. split; [reflexivity|]. split; [reflexivity|]. split; [reflexivity|]. reflexivity. Qed.

Lemma grows_trans st1 st2 st3 : grows st1 st2 -> grows st2 st3 -> grows st1 st3.
Proof.
  intros (Ho1 & Hc1 & Hr1 & Hh1) (Ho2 & Hc2 & Hr2 & Hh2).
  split; [congruence|]. split; [etrans; eauto|]. split; [set_solver|].
  intros n Hn. rewrite Hh2 by set_solver. apply Hh1, Hn.
Qed.

Lemma bind_grows {A B} (c : M A) (f : A -> M B) :
  (forall st, grows st (snd (c st))) -> (forall x st, grows st (snd (f x st))) ->
  forall st, grows st (snd (bind c f st)).
Proof.
  intros Hc Hf st. unfold bind. destruct (c st) as [[e|x] st'] eqn:E.
  - pose proof (Hc st) as H. rewrite E in H. exact H.
  - apply grows_trans with st'; [pose proof (Hc st) as H; rewrite E in H; exact H|apply Hf].
Qed.

Lemma compileTemplate_grows tc opts st : grows st (snd (compileTemplate tc opts st)).
Proof.
  destruct st as [tg hb]. cbn.
  destruct (compiledTemplates tg !! TemplateConfig.name tc) eqn:Hc; [apply grows_refl|].
  destruct (String.eqb _ _); [apply grows_refl|]. destruct (Z.ltb _ _); [apply grows_refl|].
  split; [reflexivity|]. split; [by apply insert_subseteq|]. split; [reflexivity|]. reflexivity.
Qed.

Lemma registerCustomHelpers_grows hs : forall st, grows st (snd (registerCustomHelpers hs st)).
Proof.
  induction hs as [|[name fn] rest IH]; intros [tg hb]; [apply grows_refl|].
  rewrite GenerationProofs.registerCustomHelpers_cons. destruct (decide _) as [Hin|Hnin]; [apply IH|].
  eapply grows_trans; [|apply IH].
  split; [reflexivity|]. split; [reflexivity|]. split; [cbn; set_solver|].
  intros n Hn. cbn. rewrite lookup_insert_ne; [reflexivity|]. intros ->. exact (Hnin Hn).
Qed.

Lemma renderTemplate_state run compiled ctx st : snd (renderTemplate run compiled ctx st) = st.
Proof. unfold renderTemplate, bind, get_hb. cbn. destruct (run _ _ _) as [e|[]]; reflexivity. Qed.

Lemma generate_body_grows run tc ps mergedOptions st :
  grows st (snd (generate_body run tc ps mergedOptions st)).
Proof.
  unfold generate_body. revert st.
  apply bind_grows; [apply compileTemplate_grows|intros compiled].
  apply bind_grows; [intros st; apply grows_refl|intros ctx].
  apply bind_grows; [destruct (GenerationOptions.customHelpers mergedOptions);
                     [apply registerCustomHelpers_grows|intros st; apply grows_refl]|intros _].
  apply bind_grows; [intros st; rewrite renderTemplate_state; apply grows_refl|intros out st; apply grows_refl].
Qed.

Lemma generatePrompt_state run tc ps opts t0 t1 st :
  snd (generatePrompt run tc ps opts t0 t1 st) =
  snd (generate_body run tc ps (GenerationOptions.merge (options (fst st)) opts) st).
Proof.
  unfold generatePrompt. destruct (generate_body _ _ _ _ st) as [[e|[out ctx]] st']; reflexivity.
Qed.

(** Whether it succeeds or fails, [generatePrompt] keeps the generator's
    options, evicts no compiled template, forgets no registered helper
    name, and never replaces the global helper of a name the instance had
    already registered. *)
Theorem generatePrompt_preserves (run : Runtime) (tc : TemplateConfig.t) (ps : list (string * jsval))
    (opts : GenerationOptions.t) (t0 t1 : Z) (st : State) :
  let st' := snd (generatePrompt run tc ps opts t0 t1 st) in
  options (fst st') = options (fst st) /\
  compiledTemplates (fst st) ⊆ compiledTemplates (fst st') /\
  registeredHelpers (fst st) ⊆ registeredHelpers (fst st') /\
  (forall n, n ∈ registeredHelpers (fst st) -> helpers (snd st') !! n = helpers (snd st) !! n).
Proof. cbv zeta. rewrite generatePrompt_state. apply generate_body_grows. Qed.

(** A successful [generatePrompt] compiled the configuration's name into
    the cache, built its context with [prepareContext], ran the cached
    template with the global helpers it leaves behind, and returns the
    cleaned-up string the template produced. *)
Theorem generatePrompt_success (run : Runtime) (tc : TemplateConfig.t) (ps : list (string * jsval))
    (opts : GenerationOptions.t) (t0 t1 : Z) (st : State)
    (Hs : success (fst (generatePrompt run tc ps opts t0 t1 st)) = true) :
  let res := fst (generatePrompt run tc ps opts t0 t1 st) in
  let st' := snd (generatePrompt run tc ps opts t0 t1 st) in
  exists c s,
    prepareContext ps tc (GenerationOptions.merge (options (fst st)) opts) = inr (context res) /\
    compiledTemplates (fst st') !! TemplateConfig.name tc = Some c /\
    run (helpers (snd st')) c (context res) = inr (JStr s) /\
    output res = cleanupOutput s /\
    error res = None.
Proof.
  cbv zeta. unfold generatePrompt in *.
  set (merged := GenerationOptions.merge (options (fst st)) opts) in *.
  destruct (generate_body run tc ps merged st) as [[e|[out ctx]] st'] eqn:Eg; [discriminate|]. cbn.
  unfold generate_body, bind in Eg.
  destruct (compileTemplate tc merged st) as [[e|c] st1] eqn:E1; [discriminate|].
  cbn [lift] in Eg. destruct (prepareContext ps tc merged) as [e|ctx0] eqn:E2; [discriminate|].
  destruct ((match GenerationOptions.customHelpers merged with
             | Some hs => registerCustomHelpers hs
             | None => ret tt
             end) st1) as [[e|[]] st2] eqn:E3; [discriminate|].
  unfold renderTemplate, bind, get_hb in Eg. cbn in Eg.
  destruct (run (helpers (snd st2)) c ctx0) as [e|v] eqn:E4; [discriminate|].
  destruct v; try discriminate. cbn in Eg. injection Eg as <- <- <-.
  exists c, s. split; [reflexivity|]. split; [|split; [exact E4|split; reflexivity]].
  assert (Hc1 : compiledTemplates (fst st1) !! TemplateConfig.name tc = Some c).
  { destruct st as [tg hb].
    assert (Hok : fst (compileTemplate tc merged (tg, hb)) = inr c) by (rewrite E1; reflexivity).
    destruct (compileTemplate_ok_cases tc merged tg hb c Hok) as [(Hc & Hst)|(Hc & -> & Hst)];
      rewrite E1 in Hst; cbn in Hst; subst st1; [exact Hc|]. cbn. apply lookup_insert_eq. }
  assert (Hg : grows st1 st2).
  { destruct (GenerationOptions.customHelpers merged) as [hs|].
    - pose proof (registerCustomHelpers_grows hs st1) as H. rewrite E3 in H. exact H.
    - cbn in E3. injection E3 as <-. apply grows_refl. }
  destruct Hg as (_ & Hsub & _). exact (lookup_weaken _ _ _ _ Hc1 Hsub).
Qed.

Lemma check_required_none (params : list (string * ParameterConfig.t)) (ps : list (string * jsval)) :
  check_required params ps = None <->
  forall n cfg, In (n, cfg) params -> ParameterConfig.required cfg = true -> js_in n ps = true.
Proof.
  induction params as [|[n0 c0] rest IH]; cbn.
  - split; [intros _ n cfg []|reflexivity].
  - destruct (ParameterConfig.required c0 && negb (js_in n0 ps)) eqn:E.
    + split; [discriminate|]. intros H. apply andb_prop in E as [Hr Hj].
      rewrite (H n0 c0 (or_introl eq_refl) Hr) in Hj. discriminate.
    + rewrite IH. split.
      * intros H n cfg [Heq|Hin] Hr; [|exact (H n cfg Hin Hr)].
        injection Heq as <- <-. rewrite Hr in E. destruct (js_in n0 ps); [reflexivity|discriminate].
      * intros H n cfg Hin. apply H. right. exact Hin.
Qed.

Lemma check_required_some (params : list (string * ParameterConfig.t)) (ps : list (string * jsval)) (e : jserror) :
  check_required params ps = Some e ->
  exists n cfg, In (n, cfg) params /\ ParameterConfig.required cfg = true /\ js_in n ps = false /\
    e = ValidationError ("Required parameter '" +s+ n +s+ "' is missing from context").
Proof.
  induction params as [|[n0 c0] rest IH]; cbn; [discriminate|].
  destruct (ParameterConfig.required c0 && negb (js_in n0 ps)) eqn:E.
  - intros H. injection H as <-. apply andb_prop in E as [Hr Hj]. apply negb_true_iff in Hj.
    exists n0, c0. auto.
  - intros H. destruct (IH H) as (n & cfg & Hin & Hr & Hj & He). exists n, cfg. auto.
Qed.

(** [prepareContext] throws exactly when a required parameter is neither
    a key of the parameters nor a property every object inherits (so a
    required parameter named like [toString] never counts as missing),
    with a [ValidationError] naming such a parameter.  On success the
    context holds the parameters unchanged except for [_template], the
    template's name and description, and [_utils], the utility functions
    unless [includeHelpers] is false. *)
Theorem prepareContext_spec (ps : list (string * jsval)) (tc : TemplateConfig.t) (opts : GenerationOptions.t) :
  ((exists e, prepareContext ps tc opts = inl e) <->
   exists n cfg, In (n, cfg) (TemplateConfig.parameters tc) /\ ParameterConfig.required cfg = true /\
                 js_in n ps = false) /\
  (forall e, prepareContext ps tc opts = inl e ->
     exists n cfg, In (n, cfg) (TemplateConfig.parameters tc) /\ ParameterConfig.required cfg = true /\
       js_in n ps = false /\ e = ValidationError ("Required parameter '" +s+ n +s+ "' is missing from context")) /\
  (forall ctx, prepareContext ps tc opts = inr ctx ->
     obj_get "_template" ctx = JObject [("name", JStr (TemplateConfig.name tc));
                                        ("description", JStr (TemplateConfig.description tc))] /\
     obj_get "_utils" ctx = (if decide (GenerationOptions.includeHelpers opts = Some false)
                             then obj_get "_utils" ps else utils) /\
     forall k, k <> "_template" -> k <> "_utils" -> assoc_get k ctx = assoc_get k ps).
Proof.
  unfold prepareContext.
  destruct (check_required (TemplateConfig.parameters tc) ps) as [e|] eqn:Ec.
  - split; [|split].
    + split; [intros _|intros _; eauto].
      destruct (check_required_some _ _ _ Ec) as (n & cfg & ? & ? & ? & _). eauto.
    + intros e' H. injection H as <-. exact (check_required_some _ _ _ Ec).
    + discriminate.
  - split; [|split].
    + split; [intros [e He]; discriminate|]. intros (n & cfg & Hin & Hr & Hj).
      rewrite ((proj1 (check_required_none _ _) Ec) n cfg Hin Hr) in Hj. discriminate.
    + discriminate.
    + intros ctx H. injection H as <-.
      destruct (decide (GenerationOptions.includeHelpers opts = Some false)) as [Hf|Hf].
      * rewrite Hf. cbn. unfold obj_get.
        rewrite CollectionProofs.assoc_get_obj_set_eq, CollectionProofs.assoc_get_obj_set_ne by discriminate.
        split; [reflexivity|]. split; [reflexivity|].
        intros k Hk _. apply CollectionProofs.assoc_get_obj_set_ne. congruence.
      * assert (Hb : negb (Bool.eqb (default true (GenerationOptions.includeHelpers opts)) false) = true).
        { destruct (GenerationOptions.includeHelpers opts) as [[]|]; [reflexivity| |reflexivity].
          exfalso. apply Hf. reflexivity. }
        rewrite Hb. unfold obj_get.
        rewrite CollectionProofs.assoc_get_obj_set_eq.
        rewrite CollectionProofs.assoc_get_obj_set_ne by discriminate.
        rewrite CollectionProofs.assoc_get_obj_set_eq.
        split; [reflexivity|]. split; [reflexivity|].
        intros k Hk Hu. rewrite !CollectionProofs.assoc_get_obj_set_ne by congruence. reflexivity.
Qed.

(** ** Examples *)

Definition ex_tc : TemplateConfig.t :=
  TemplateConfig.mk "greet" "Greeting" "Hello  {{who}}" [("who", ParameterConfig.mk "Name" true None PTString)].

(** A later configuration under the same name, with another source. *)
Definition ex_tc' : TemplateConfig.t := TemplateConfig.mk "greet" "Greeting, v2" "Bye {{who}}" [].

Definition ex_st : State := new_TemplateGenerator GenerationOptions.empty Handlebars_empty.

(** A runtime that prints the template source as it is. *)
Definition ex_run : Runtime := fun _ c _ => inr (JStr (c_source c)).

Lemma compile_cache_keyed_by_name_witness :
  fst (compileTemplate ex_tc GenerationOptions.empty ex_st) = inr (compiled_of ex_tc GenerationOptions.empty) /\
  TemplateConfig.name ex_tc' = TemplateConfig.name ex_tc /\
  compileTemplate ex_tc' GenerationOptions.empty (snd (compileTemplate ex_tc GenerationOptions.empty ex_st)) =
    (inr (compiled_of ex_tc GenerationOptions.empty), snd (compileTemplate ex_tc GenerationOptions.empty ex_st)).
Proof.
  assert (H : fst (compileTemplate ex_tc GenerationOptions.empty ex_st) = inr (compiled_of ex_tc GenerationOptions.empty))
    by (vm_compute; reflexivity).
  split; [exact H|]. split; [reflexivity|].
  exact (proj1 (compile_cache_keyed_by_name ex_tc ex_tc' GenerationOptions.empty GenerationOptions.empty
                  ex_st _ H eq_refl)).
Defined.

Lemma cache_stats_and_clear_witness :
  TemplateConfig.template ex_tc' <> "" /\
  (Z.of_nat (String.length (TemplateConfig.template ex_tc')) <= maxSize (fst ex_st))%Z /\
  fst (compileTemplate ex_tc' GenerationOptions.empty (clearCache (fst ex_st), snd ex_st)) =
    inr (compiled_of ex_tc' GenerationOptions.empty).
Proof.
  assert (Hne : TemplateConfig.template ex_tc' <> "") by discriminate.
  assert (Hle : (Z.of_nat (String.length (TemplateConfig.template ex_tc')) <= maxSize (fst ex_st))%Z)
    by (apply Z.leb_le; vm_compute; reflexivity).
  split; [exact Hne|]. split; [exact Hle|].
  exact (proj1 (proj2 (proj2 (cache_stats_and_clear (fst ex_st) (snd ex_st) ex_tc' GenerationOptions.empty Hne Hle)))).
Defined.

Lemma generatePrompt_success_witness :
  success (fst (generatePrompt ex_run ex_tc [("who", JStr "Ada")] GenerationOptions.empty 0 5 ex_st)) = true /\
  output (fst (generatePrompt ex_run ex_tc [("who", JStr "Ada")] GenerationOptions.empty 0 5 ex_st)) =
    cleanupOutput "Hello  {{who}}".
Proof.
  assert (H : success (fst (generatePrompt ex_run ex_tc [("who", JStr "Ada")] GenerationOptions.empty 0 5 ex_st)) = true)
    by (vm_compute; reflexivity).
  split; [exact H|].
  destruct (generatePrompt_success ex_run ex_tc [("who", JStr "Ada")] GenerationOptions.empty 0 5 ex_st H)
    as (c & s & _ & Hc & Hrun & Hout & _).
  rewrite Hout. vm_compute in Hc. injection Hc as <-. cbn in Hrun. injection Hrun as <-. reflexivity.
Defined.

End GenerationExtraProofs.

(* ================================================================= *)
(** ** Collected parameters *)

Module CollectionExtraProofs.
Import ParameterConfig Collection CollectionProofs.

(** A stored value of the declared type: a string, a number other than
    NaN, or a boolean. *)
Definition has_type (t : ParameterType) (v : jsval) : bool :=
  match t, v with
  | PTString, JStr _ => true
  | PTNumber, JNum n => negb (isNaN n)
  | PTBoolean, JBool _ => true
  | _, _ => false
  end.

Section Typed.
Context `{JsNumeric}.

Lemma convertValue_typed (paramName : string) (t : ParameterType) (finalValue v : jsval) :
  convertValue paramName t finalValue = inr v -> has_type t v = true.
Proof.
  destruct t; cbn.
  - intros Hv. injection Hv as <-. reflexivity.
  - destruct (isNaN (ToNumber finalValue)) eqn:En; [discriminate|].
    intros Hv. injection Hv as <-. cbn. rewrite En. reflexivity.
  - destruct finalValue; try (intros Hv; injection Hv as <-; reflexivity).
    destruct (_ || _ || _); [intros Hv; injection Hv as <-; reflexivity|].
    destruct (_ || _ || _); [intros Hv; injection Hv as <-; reflexivity|discriminate].
Qed.

Lemma obj_set_keys (k x : string) (v : jsval) (o : list (string * jsval)) :
  In x (map fst (obj_set k v o)) -> x = k \/ In x (map fst o).
Proof.
  induction o as [|[k' v'] t IH]; cbn.
  - intros [<-|[]]. left. reflexivity.
  - destruct (String.eqb k k'); cbn; intros [<-|Hin]; auto.
    destruct (IH Hin); auto.
Qed.

Lemma obj_set_nodup (k : string) (v : jsval) (o : list (string * jsval)) :
  NoDup (map fst o) -> NoDup (map fst (obj_set k v o)).
Proof.
  induction o as [|[k' v'] t IH]; cbn; intros Hnd.
  - apply NoDup_singleton.
  - apply NoDup_cons in Hnd as [Hk' Hnd].
    destruct (String.eqb k k') eqn:E; cbn; apply NoDup_cons; split; auto.
    rewrite list_elem_of_In. intros Hin. apply obj_set_keys in Hin as [->|Hin].
    + rewrite String.eqb_refl in E. discriminate.
    + apply Hk'. by apply list_elem_of_In.
Qed.

Lemma obj_set_present (k x : string) (v : jsval) (o : list (string * jsval)) :
  is_Some (assoc_get x o) -> is_Some (assoc_get x (obj_set k v o)).
Proof.
  intros Hs. destruct (String.eqb k x) eqn:E.
  - apply String.eqb_eq in E. subst x. rewrite assoc_get_obj_set_eq. eauto.
  - apply String.eqb_neq in E. rewrite assoc_get_obj_set_ne by exact E. exact Hs.
Qed.

Lemma convert_entry_cases (rawAnswers ps ps' : list (string * jsval)) (k : string) (cfg : ParameterConfig.t) :
  convert_entry rawAnswers ps (k, cfg) = inr ps' ->
  (ps' = ps /\ required cfg = false) \/ (exists v, ps' = obj_set k v ps /\ has_type (type cfg) v = true).
Proof.
  unfold convert_entry. destruct (negb (required cfg) && _) eqn:Es.
  - intros Hp. injection Hp as <-. left. split; [reflexivity|].
    apply andb_prop in Es as [Hr _]. by apply negb_true_iff in Hr.
  - destruct (convertValue k (type cfg) _) as [e|v] eqn:Ev; [discriminate|].
    destruct (validateParameterValue _ _ _); [discriminate|].
    intros Hp. injection Hp as <-. right. exists v. split; [reflexivity|]. exact (convertValue_typed _ _ _ _ Ev).
Qed.

Lemma convert_loop_invariant (rawAnswers : list (string * jsval)) (all : list (string * ParameterConfig.t))
    (es : list (string * ParameterConfig.t)) : forall ps ps',
  convert_loop rawAnswers es ps = inr ps' ->
  (forall e, In e es -> In e all) ->
  (forall k v, assoc_get k ps = Some v -> exists cfg, In (k, cfg) all /\ has_type (type cfg) v = true) ->
  NoDup (map fst ps) ->
  (forall k v, assoc_get k ps' = Some v -> exists cfg, In (k, cfg) all /\ has_type (type cfg) v = true) /\
  NoDup (map fst ps') /\
  (forall k cfg, In (k, cfg) es -> required cfg = true -> is_Some (assoc_get k ps')) /\
  (forall k, is_Some (assoc_get k ps) -> is_Some (assoc_get k ps')).
Proof.
  induction es as [|[k0 c0] rest IH]; intros ps ps' Hl Hall Hty Hnd.
  - injection Hl as <-. split; [exact Hty|]. split; [exact Hnd|]. split; [intros k cfg []|auto].
  - cbn [convert_loop] in Hl. destruct (convert_entry rawAnswers ps (k0, c0)) as [e|ps1] eqn:E; [discriminate|].
    assert (Hall' : forall e, In e rest -> In e all) by (intros e He; apply Hall; right; exact He).
    destruct (convert_entry_cases _ _ _ _ _ E) as [[-> Hr]|(v & -> & Hv)].
    + destruct (IH ps ps' Hl Hall' Hty Hnd) as (Hty' & Hnd' & Hreq & Hkeep).
      split; [exact Hty'|]. split; [exact Hnd'|]. split; [|exact Hkeep].
      intros k cfg [Heq|Hin] Hrq; [injection Heq as <- <-; congruence|exact (Hreq k cfg Hin Hrq)].
    + assert (Hty1 : forall k v', assoc_get k (obj_set k0 v ps) = Some v' ->
                     exists cfg, In (k, cfg) all /\ has_type (type cfg) v' = true).
      { intros k v' Hk. destruct (String.eqb k0 k) eqn:Ek.
        - apply String.eqb_eq in Ek. subst k. rewrite assoc_get_obj_set_eq in Hk. injection Hk as <-.
          exists c0. split; [apply Hall; left; reflexivity|exact Hv].
        - apply String.eqb_neq in Ek. rewrite assoc_get_obj_set_ne in Hk by exact Ek. exact (Hty k v' Hk). }
      destruct (IH _ ps' Hl Hall' Hty1 (obj_set_nodup _ _ _ Hnd)) as (Hty' & Hnd' & Hreq & Hkeep).
      split; [exact Hty'|]. split; [exact Hnd'|]. split.
      * intros k cfg [Heq|Hin] Hrq; [|exact (Hreq k cfg Hin Hrq)].
        injection Heq as <- <-. apply Hkeep. rewrite assoc_get_obj_set_eq. eauto.
      * intros k Hk. apply Hkeep. by apply obj_set_present.
Qed.

(** After a successful collection every stored parameter has a
    configuration of its name whose declared type the value has (a
    string, a number other than NaN, or a boolean); no key is stored
    twice; and every required parameter is stored. *)
Theorem collectParameters_success_typed (prompt : list Question -> list (string * jsval))
    (tc : TemplateConfig.t) (options : CollectionOptions)
    (Hs : success (collectParameters prompt tc options) = true) :
  let ps := parameters (collectParameters prompt tc options) in
  (forall k v, assoc_get k ps = Some v ->
     exists cfg, In (k, cfg) (TemplateConfig.parameters tc) /\ has_type (type cfg) v = true) /\
  NoDup (map fst ps) /\
  (forall k cfg, In (k, cfg) (TemplateConfig.parameters tc) -> required cfg = true -> is_Some (assoc_get k ps)).
Proof.
  cbv zeta. revert Hs. unfold collectParameters.
  destruct (TemplateConfig.parameters tc) as [|p rest] eqn:Ep.
  - intros _. cbn. split; [discriminate|]. split; [apply NoDup_nil_2|]. intros k cfg [].
  - rewrite <- Ep. unfold validateAndConvertParameters.
    destruct (convert_loop _ (TemplateConfig.parameters tc) []) as [e|ps] eqn:El; [discriminate|].
    intros _. cbn [parameters].
    destruct (convert_loop_invariant _ (TemplateConfig.parameters tc) _ [] ps El) as (Hty & Hnd & Hreq & _);
      [auto|discriminate|apply NoDup_nil_2|].
    auto.
Qed.


End Typed.

Lemma substring_prefix (s : string) : forall m, m <= String.length s ->
  String.length (String.substring 0 m s) = m /\ String.prefix (String.substring 0 m s) s = true.
Proof.
  induction s as [|c t IH]; intros [|m] Hm; cbn in *; try lia; try (split; reflexivity).
  destruct (IH m ltac:(lia)) as [Hl Hp]. split; [lia|].
  destruct (ascii_dec c c) as [_|Hc]; [exact Hp|contradiction].
Qed.

(** [displayCollectedParameters] shows a string value in at most 50
    characters: unchanged when it fits, otherwise its first 47 characters
    followed by "...".  It prints the header line naming the template;
    then "  (No parameters)" alone when there is no parameter; otherwise
    one line "  <bullet> <name>: <value>" per parameter, in order,
    followed by an empty line. *)
Theorem displayValue_bounded `{JsNumeric} (header_icon bullet : string) (s : string)
    (parameters : list (string * jsval)) (templateName : string) :
  let out := CollectionDisplay.displayCollectedParameters header_icon bullet parameters templateName in
  let header := header_icon +s+ " Collected parameters for template '" +s+ templateName +s+ "':" in
  String.length (CollectionDisplay.displayValue (JStr s)) <= 50 /\
  (String.length s <= 50 -> CollectionDisplay.displayValue (JStr s) = s) /\
  (50 < String.length s -> exists p, CollectionDisplay.displayValue (JStr s) = p +s+ "..." /\
                                     String.length p = 47 /\ String.prefix p s = true) /\
  head out = Some header /\
  (parameters = [] -> out = [header; "  (No parameters)"]) /\
  (parameters <> [] ->
     length out = length parameters + 2 /\
     (forall i k v, nth_error parameters i = Some (k, v) ->
        nth_error out (S i) =
          Some ("  " +s+ bullet +s+ " " +s+ k +s+ ": " +s+ CollectionDisplay.displayValue v)) /\
     nth_error out (S (length parameters)) = Some "").
Proof.
  intros out header. unfold CollectionDisplay.displayValue at 1 2 3.
  split; [|split; [|split; [|split; [|split]]]].
  - destruct (Nat.ltb 50 (String.length s)) eqn:E.
    + apply Nat.ltb_lt in E. destruct (substring_prefix s 47 ltac:(lia)) as [Hl _].
      rewrite DiscoveryProofs.string_length_append, Hl. cbn. lia.
    + apply Nat.ltb_ge in E. exact E.
  - intros Hle. assert (E : Nat.ltb 50 (String.length s) = false) by (apply Nat.ltb_ge; exact Hle).
    rewrite E. reflexivity.
  - intros Hlt. assert (E : Nat.ltb 50 (String.length s) = true) by (apply Nat.ltb_lt; exact Hlt).
    rewrite E. exists (String.substring 0 47 s). split; [reflexivity|]. apply substring_prefix. lia.
  - reflexivity.
  - intros ->. reflexivity.
  - intros Hne. subst out. unfold CollectionDisplay.displayCollectedParameters.
    destruct parameters as [|p rest]; [contradiction|].
    set (f := fun '(name, value) => "  " +s+ bullet +s+ " " +s+ name +s+ ": " +s+ CollectionDisplay.displayValue value).
    split; [|split].
    + cbn [length]. rewrite length_app, length_map. cbn. lia.
    + intros i k v Hi. cbn [nth_error].
      assert (Hlt : i < length (p :: rest)) by (apply nth_error_Some; rewrite Hi; discriminate).
      rewrite nth_error_app1 by (rewrite length_map; exact Hlt).
      rewrite nth_error_map, Hi. reflexivity.
    + cbn [nth_error]. rewrite nth_error_app2 by (rewrite length_map; lia).
      rewrite length_map, Nat.sub_diag. reflexivity.
Qed.

(** ** Examples *)

Lemma collectParameters_success_typed_witness :
  success (collectParameters (H := decimal_numeric) (fun _ => [("who", JStr "Ada"); ("count", JStr " 3 ")])
             (TemplateConfig.mk "t" "" "{{who}} {{count}}"
                [("who", ParameterConfig.mk "" true None PTString);
                 ("count", ParameterConfig.mk "" false (Some "1") PTNumber)])
             default_options) = true /\
  NoDup (map fst (parameters (collectParameters (H := decimal_numeric) (fun _ => [("who", JStr "Ada"); ("count", JStr " 3 ")])
             (TemplateConfig.mk "t" "" "{{who}} {{count}}"
                [("who", ParameterConfig.mk "" true None PTString);
                 ("count", ParameterConfig.mk "" false (Some "1") PTNumber)])
             default_options))).
Proof.
  assert (Hs : success (collectParameters (H := decimal_numeric) (fun _ => [("who", JStr "Ada"); ("count", JStr " 3 ")])
             (TemplateConfig.mk "t" "" "{{who}} {{count}}"
                [("who", ParameterConfig.mk "" true None PTString);
                 ("count", ParameterConfig.mk "" false (Some "1") PTNumber)])
             default_options) = true) by (vm_compute; reflexivity).
  split; [exact Hs|]. exact (proj1 (proj2 (collectParameters_success_typed _ _ _ Hs))).
Defined.


End CollectionExtraProofs.
